(** * The package dependency resolver: internal/controller/pkg/resolver

    A shallow embedding of [Reconciler.Reconcile] (reconciler.go) and of the
    interfaces it is written against, followed by the properties of one
    reconciliation pass.

    One pass is straight-line Go with early returns, calls to injected
    collaborators (API client, finalizer, DAG, tag fetcher), debug logging
    and one possible run-time panic.  It is embedded in a small monad
    [Pass] that threads the chronological trace of observable effects and
    stops at the first [return] or panic. *)

From Stdlib Require Import String Ascii List ZArith NArith Bool Lia.
From Stdlib Require Import Permutation Sorted.
Import ListNotations.

Local Open Scope string_scope.
Local Open Scope list_scope.

(** ** Go values *)

(** A non-nil Go [error].  [NotFound] is the API server's "not found"
    status error, the only one that [resource.IgnoreNotFound] tells apart;
    [Wrapped] is what [errors.Wrap] builds. *)
Inductive GoError : Type :=
| NotFound (msg : string)
| Failure (msg : string)
| Wrapped (cause : GoError) (msg : string).

(** The Go interface type [error]: [None] is [nil]. *)
Definition error : Type := option GoError.

(** A Go result pair [(T, error)] in which exactly one side is meaningful. *)
Inductive result (T : Type) : Type :=
| Ok (v : T)
| Err (e : GoError).
Arguments Ok {T} v.
Arguments Err {T} e.

(** [err.Error()] *)
Fixpoint ErrorString (e : GoError) : string :=
  match e with
  | NotFound m => m
  | Failure m => m
  | Wrapped c m => m ++ ": " ++ ErrorString c
  end.

(** [errors.Wrap]: nil stays nil. *)
Definition Wrap (err : error) (message : string) : error :=
  match err with
  | None => None
  | Some e => Some (Wrapped e message)
  end.

(** [kerrors.IsNotFound]: it looks through the wrapping, as [errors.As]
    does. *)
Fixpoint IsNotFound (e : GoError) : bool :=
  match e with
  | NotFound _ => true
  | Failure _ => false
  | Wrapped cause _ => IsNotFound cause
  end.

(** [resource.IgnoreNotFound] *)
Definition IgnoreNotFound (err : error) : error :=
  match err with
  | Some e => if IsNotFound e then None else Some e
  | None => None
  end.

(** [time.Duration] is a count of nanoseconds. *)
Definition Duration : Type := Z.
Definition Second : Duration := 1000000000%Z.
Definition Minute : Duration := (60 * Second)%Z.

(** ** Constants of reconciler.go *)

Definition reconcileTimeout : Duration := (1 * Minute)%Z.
Definition shortWait : Duration := (30 * Second)%Z.

(** [fmt.Sprintf(packageTagFmt, a, b)] with [packageTagFmt = "%s:%s"]. *)
Definition packageTagFmt (a b : string) : string := a ++ ":" ++ b.

Definition finalizer : string := "lock.pkg.crossplane.io".

Definition errGetLock : string := "cannot get package lock".
Definition errAddFinalizer : string := "cannot add lock finalizer".
Definition errRemoveFinalizer : string := "cannot remove lock finalizer".
Definition errBuildDAG : string := "cannot build DAG".
Definition errSortDAG : string := "cannot sort DAG".
Definition errMissingDependencyFmt (id : string) : string :=
  "missing package (" ++ id ++ ") is not a dependency".
Definition errInvalidConstraint : string :=
  "version constraint on dependency is invalid".
Definition errInvalidDependency : string := "dependency package is not valid".
Definition errFetchTags : string := "cannot fetch dependency package tags".
Definition errNoValidVersion : string :=
  "cannot find a valid version for package constraints".
Definition errNoValidVersionFmt (id constraints : string) : string :=
  "dependency (" ++ id ++ ") does not have version in constraints ("
    ++ constraints ++ ")".
Definition errInvalidPackageType : string :=
  "cannot create invalid package dependency type".
Definition errCreateDependency : string := "cannot create dependency package".

(** ** API types the pass reads and writes *)

(** [reconcile.Request] *)
Record Request : Type := {
  Namespace : string;
  Name : string;
}.

(** [reconcile.Result] *)
Record Result : Type := {
  Requeue : bool;
  RequeueAfter : Duration;
}.

(** [reconcile.Result{}] *)
Definition emptyResult : Result := {| Requeue := false; RequeueAfter := 0%Z |}.

(** [reconcile.Result{RequeueAfter: d}] *)
Definition requeueAfter (d : Duration) : Result :=
  {| Requeue := false; RequeueAfter := d |}.

(** [v1beta1.PackageType] is a Go string type, so a lock can carry any
    string in it. *)
Definition PackageType : Type := string.

(** Modelled from the spec: the two constants of apis/pkg/v1beta1, which is
    not under src/; the spec names the dependency kinds Configuration and
    Provider. *)
Definition ConfigurationPackageType : PackageType := "Configuration".
Definition ProviderPackageType : PackageType := "Provider".

(** [v1beta1.Dependency]: the fields the pass reads. *)
Record Dependency : Type := {
  dep_Package : string;
  dep_Type : PackageType;
  dep_Constraints : string;
}.

(** Modelled from the spec: [v1beta1.LockPackage], declared in
    apis/pkg/v1beta1, which is not under src/; one installed package with
    its unique name, its source image reference, its resolved version and
    the dependencies it declares.  The pass reads none of its fields. *)
Record LockPackage : Type := {
  lp_Name : string;
  lp_Source : string;
  lp_Version : string;
  lp_Dependencies : list Dependency;
}.

(** [v1beta1.Lock] with the object metadata the pass logs. *)
Record Lock : Type := {
  lock_Name : string;
  lock_UID : string;
  lock_ResourceVersion : string;
  Packages : list LockPackage;
}.

(** [dag.Node] is an interface.  The two types of the repository that
    implement it are [*v1beta1.LockPackage] and [*v1beta1.Dependency]; any
    other implementation is known by its identifier only.  The interface
    may also hold a nil [*v1beta1.Dependency]: a value of the right type
    that points at nothing. *)
Inductive Node : Type :=
| NodeLockPackage (p : LockPackage)
| NodeDependency (d : Dependency)
| NodeOther (identifier : string)
| NodeNilDependency.

(** Modelled from the spec: [v1beta1.ToNodes], which is not under src/;
    the packages of the lock become the installed nodes handed to [Init], in
    their order. *)
Definition ToNodes (pkgs : list LockPackage) : list Node :=
  map NodeLockPackage pkgs.

(** The comma-ok type assertion of a node to a [v1beta1.Dependency] pointer:
    the pointer is nil when the assertion fails, and also when it succeeds
    on a nil pointer of that type. *)
Definition assertDependency (n : Node) : option Dependency * bool :=
  match n with
  | NodeDependency d => (Some d, true)
  | NodeNilDependency => (None, true)
  | NodeLockPackage _ | NodeOther _ => (None, false)
  end.

(** The concrete types behind [v1.Package]. *)
Inductive PackageKind : Type := Configuration | Provider.

(** A [v1.Package] as far as the pass sets it. *)
Record Package : Type := {
  pkg_Kind : PackageKind;
  pkg_Name : string;
  pkg_Source : string;
}.

(** [&v1.Configuration{}] and [&v1.Provider{}] *)
Definition newPackage (k : PackageKind) : Package :=
  {| pkg_Kind := k; pkg_Name := ""; pkg_Source := "" |}.
Definition SetName (p : Package) (n : string) : Package :=
  {| pkg_Kind := pkg_Kind p; pkg_Name := n; pkg_Source := pkg_Source p |}.
Definition SetSource (p : Package) (s : string) : Package :=
  {| pkg_Kind := pkg_Kind p; pkg_Name := pkg_Name p; pkg_Source := s |}.

(** ** Libraries the pass is written against *)

(** github.com/Masterminds/semver, as far as the pass calls it. *)
Class Semver : Type := {
  Version : Type;
  Constraints : Type;
  NewVersion : string -> result Version;
  NewConstraint : string -> result Constraints;
  Check : Constraints -> Version -> bool;
  Original : Version -> string;
  LessThan : Version -> Version -> bool;
}.

(** [sort.Sort(semver.Collection(vs))]: Go's sort, whose [Less] is
    [LessThan].  It is not stable, so only its contract is fixed (see
    [SemverLaws]). *)
Class GoSort (S : Semver) : Type := {
  sort_Sort : list Version -> list Version;
}.

(** github.com/google/go-containerregistry/pkg/name *)
Class NameLib : Type := {
  Reference : Type;
  Repository : Type;
  ParseReference : string -> result Reference;
  Context : Reference -> Repository;
  RepositoryStr : Repository -> string;
  RefString : Reference -> string;
}.

(** internal/xpkg, package level. *)
Class Xpkg : Type := {
  ToDNSLabel : string -> string;
}.

(** ** The pass, its collaborators and its effects *)

Section Resolver.

Context {semver : Semver} {gosort : GoSort semver} {name : NameLib}
        {xpkg : Xpkg}.

(** [client.Client]: the two calls the pass makes. *)
Record Client : Type := {
  Get : Request -> result Lock;
  Create : Package -> error;
}.

(** [resource.Finalizer] *)
Record Finalizer : Type := {
  AddFinalizer : Lock -> error;
  RemoveFinalizer : Lock -> error;
}.

(** [dag.DAG], a stateful graph: [Init] fills it and reports the implied
    nodes, [Sort] reads it.  The state is passed explicitly. *)
Record DAG : Type := {
  dag_state : Type;
  dag_new : dag_state;
  Init : dag_state -> list Node -> dag_state * result (list Node);
  Sort : dag_state -> result (list string);
}.

(** [xpkg.Fetcher] *)
Record Fetcher : Type := {
  Tags : Reference -> result (list string);
}.

(** A value handed to the logger. *)
Inductive LogValue : Type :=
| LStr (s : string)
| LReq (r : Request)
| LErr (e : GoError).

(** A [logging.Logger] is the key/value context it was given so far. *)
Definition Logger : Type := list LogValue.

(** [log.WithValues] *)
Definition WithValues (l : Logger) (kvs : list LogValue) : Logger := l ++ kvs.

(** [Reconciler]; [newDag] is the graph of a fresh [r.newDag()]. *)
Record Reconciler : Type := {
  client : Client;
  log : Logger;
  lock : Finalizer;
  newDag : DAG;
  fetcher : Fetcher;
}.

(** What one pass does to the outside, in the order it does it. *)
Inductive Event : Type :=
| EvDebug (l : Logger) (msg : string) (keysAndValues : list LogValue)
| EvGet (key : Request)
| EvRemoveFinalizer (l : Lock)
| EvAddFinalizer (l : Lock)
| EvInit (nodes : list Node)
| EvSort
| EvTags (ref : Reference)
| EvCreate (p : Package).

Definition Trace : Type := list Event.

(** How a call of [Reconcile] ends. *)
Inductive Outcome : Type :=
| Returned (res : Result) (err : error)
| Panicked (msg : string).

(** One statement either falls through with a value or ends the call. *)
Inductive Step (A : Type) : Type :=
| Next (a : A)
| Stop (o : Outcome).
Arguments Next {A} a.
Arguments Stop {A} o.

Definition Pass (A : Type) : Type := Trace -> Trace * Step A.

Definition ret {A} (a : A) : Pass A := fun tr => (tr, Next a).

Definition bind {A B} (m : Pass A) (k : A -> Pass B) : Pass B :=
  fun tr =>
    match m tr with
    | (tr', Next a) => k a tr'
    | (tr', Stop o) => (tr', Stop o)
    end.

(** [return res, err] *)
Definition return_ {A} (res : Result) (err : error) : Pass A :=
  fun tr => (tr, Stop (Returned res err)).

Definition panic {A} (msg : string) : Pass A :=
  fun tr => (tr, Stop (Panicked msg)).

Definition emit (e : Event) : Pass unit := fun tr => (tr ++ [e], Next tt).

(** A call to a collaborator: the call is observed, its answer comes back. *)
Definition call {A} (e : Event) (answer : A) : Pass A :=
  bind (emit e) (fun _ => ret answer).

(** [log.Debug] *)
Definition Debug (l : Logger) (msg : string) (kvs : list LogValue)
  : Pass unit :=
  emit (EvDebug l msg kvs).

Definition nilDereference : string :=
  "runtime error: invalid memory address or nil pointer dereference".

(** Reading through a [*v1beta1.Dependency]. *)
Definition deref {A} (p : option Dependency) (field : Dependency -> A)
  : Pass A :=
  match p with
  | Some d => ret (field d)
  | None => panic nilDereference
  end.

(** Modelled from the spec: the method [Identifier] of [*v1beta1.Dependency]
    (apis/pkg/v1beta1 is not under src/); the identifier of a dependency is
    its target package, read through the receiver. *)
Definition Identifier (p : option Dependency) : Pass string :=
  deref p dep_Package.

(** Runs a whole call from the empty trace. *)
Definition run (p : Pass Empty_set) : Trace * Outcome :=
  match p [] with
  | (tr, Next e) => match e with end
  | (tr, Stop o) => (tr, o)
  end.

End Resolver.

Declare Scope pass_scope.
Delimit Scope pass_scope with pass.
Notation "x <- m ;; k" := (bind m (fun x => k))
  (at level 61, m at next level, right associativity) : pass_scope.
Notation "m ;; k" := (bind m (fun _ => k))
  (at level 61, right associativity) : pass_scope.

Section Reconcile.

Context {semver : Semver} {gosort : GoSort semver} {name : NameLib}
        {xpkg : Xpkg}.

Local Open Scope pass_scope.

(** Lines 245-253: the tags that parse, in the order fetched. *)
Definition parseTags (tags : list string) : list Version :=
  fold_left
    (fun vs r =>
       match NewVersion r with
       | Err _ => vs                     (* continue *)
       | Ok v => vs ++ [v]               (* vs = append(vs, v) *)
       end)
    tags [].

(** Lines 256-261: the scan that overwrites [addVer] at every match. *)
Definition scanVersions (c : Constraints) (vs : list Version) : string :=
  fold_left (fun addVer v => if Check c v then Original v else addVer) vs "".

(** Lines 245-261: from the fetched tags to [addVer]. *)
Definition selectVersion (c : Constraints) (tags : list string) : string :=
  scanVersions c (sort_Sort (parseTags tags)).

(** [Reconciler.Reconcile].  The context with its one-minute timeout is
    handed to every collaborator and is not part of the model: a
    collaborator that runs out of time answers with an error. *)
Definition Reconcile (r : Reconciler) (req : Request) : Pass Empty_set :=
  let log := WithValues (log r) [LStr "request"; LReq req] in
  Debug log "Reconciling" [] ;;
  got <- call (EvGet req) (Get (client r) req) ;;
  match got with
  | Err err =>
      Debug log errGetLock [LStr "error"; LErr err] ;;
      return_ emptyResult (Wrap (IgnoreNotFound (Some err)) errGetLock)
  | Ok lk =>
  if (length (Packages lk) =? 0)%nat then
    removed <- call (EvRemoveFinalizer lk) (RemoveFinalizer (lock r) lk) ;;
    match removed with
    | Some err =>
        Debug log errRemoveFinalizer [LStr "error"; LErr err] ;;
        return_ (requeueAfter shortWait) None
    | None =>
        return_ emptyResult None
    end
  else
  added <- call (EvAddFinalizer lk) (AddFinalizer (lock r) lk) ;;
  match added with
  | Some err =>
      Debug log errAddFinalizer [LStr "error"; LErr err] ;;
      return_ (requeueAfter shortWait) None
  | None =>
  let log := WithValues log
               [LStr "uid"; LStr (lock_UID lk);
                LStr "version"; LStr (lock_ResourceVersion lk);
                LStr "name"; LStr (lock_Name lk)] in
  let dag := newDag r in
  let '(graph, built) := Init dag (dag_new dag) (ToNodes (Packages lk)) in
  built <- call (EvInit (ToNodes (Packages lk))) built ;;
  match built with
  | Err err =>
      return_ emptyResult (Wrap (Some err) errBuildDAG)
  | Ok implied =>
  sorted <- call EvSort (Sort dag graph) ;;
  match sorted with
  | Err err =>
      return_ emptyResult (Wrap (Some err) errSortDAG)
  | Ok _ =>
  match implied with
  | [] =>
      return_ emptyResult None
  | first :: _ =>
  let '(dep, ok) := assertDependency first in
  if negb ok then
    id <- Identifier dep ;;
    Debug log errInvalidDependency
      [LStr "error"; LErr (Failure (errMissingDependencyFmt id))] ;;
    return_ emptyResult None
  else
  constraints <- deref dep dep_Constraints ;;
  match NewConstraint constraints with
  | Err err =>
      Debug log errInvalidConstraint [LStr "error"; LErr err] ;;
      return_ emptyResult None
  | Ok c =>
  package <- deref dep dep_Package ;;
  match ParseReference package with
  | Err err =>
      Debug log errInvalidDependency [LStr "error"; LErr err] ;;
      return_ emptyResult None
  | Ok ref =>
  fetched <- call (EvTags ref) (Tags (fetcher r) ref) ;;
  match fetched with
  | Err err =>
      Debug log errFetchTags [LStr "error"; LErr err] ;;
      return_ (requeueAfter shortWait) None
  | Ok tags =>
  let addVer := selectVersion c tags in
  if String.eqb addVer "" then
    id <- Identifier dep ;;
    constraints <- deref dep dep_Constraints ;;
    Debug log errNoValidVersion
      [LErr (Failure (errNoValidVersionFmt id constraints))] ;;
    return_ emptyResult None
  else
  type <- deref dep dep_Type ;;
  pack <- (if String.eqb type ConfigurationPackageType
           then ret (newPackage Configuration)
           else if String.eqb type ProviderPackageType
           then ret (newPackage Provider)
           else
             Debug log errInvalidPackageType [] ;;
             return_ emptyResult None) ;;
  let pack := SetName pack (ToDNSLabel (RepositoryStr (Context ref))) in
  let pack := SetSource pack (packageTagFmt (RefString ref) addVer) in
  created <- call (EvCreate pack) (Create (client r) pack) ;;
  match created with
  | Some err =>
      Debug log errCreateDependency [LStr "error"; LErr err] ;;
      return_ (requeueAfter shortWait) None
  | None =>
  return_ emptyResult None
  end end end end end end end end end.

(** One call of [Reconcile], from the outside. *)
Definition reconcilePass (r : Reconciler) (req : Request) : Trace * Outcome :=
  run (Reconcile r req).

Definition passTrace (r : Reconciler) (req : Request) : Trace :=
  fst (reconcilePass r req).

Definition passOutcome (r : Reconciler) (req : Request) : Outcome :=
  snd (reconcilePass r req).

End Reconcile.

(** ** Reading a trace *)

Section Observations.

Context {name : NameLib}.

(** The packages handed to [client.Create], in order. *)
Definition creations (tr : Trace) : list Package :=
  flat_map (fun e => match e with EvCreate p => [p] | _ => [] end) tr.

(** The references handed to [fetcher.Tags], in order. *)
Definition fetches (tr : Trace) : list Reference :=
  flat_map (fun e => match e with EvTags ref => [ref] | _ => [] end) tr.

(** The debug messages with their key/value arguments, in order. *)
Definition debugs (tr : Trace) : list (string * list LogValue) :=
  flat_map (fun e => match e with
                     | EvDebug _ msg kvs => [(msg, kvs)]
                     | _ => []
                     end) tr.

(** The calls to collaborators, without the log lines. *)
Definition calls (tr : Trace) : Trace :=
  filter (fun e => match e with EvDebug _ _ _ => false | _ => true end) tr.

(** The pass ended with [reconcile.Result{}, nil]. *)
Definition done (o : Outcome) : Prop := o = Returned emptyResult None.

(** The pass ended with [reconcile.Result{RequeueAfter: d}, nil]. *)
Definition retryAfter (d : Duration) (o : Outcome) : Prop :=
  o = Returned (requeueAfter d) None.

End Observations.

(** ** How far a pass gets *)

Section Stages.

Context {semver : Semver} {gosort : GoSort semver} {name : NameLib}
        {xpkg : Xpkg}.

(** The pass gets to the graph: the lock [lk] is there with at least one
    package, the finalizer is added, and [Init] leaves the graph [graph] and
    reports the nodes [implied]. *)
Definition graphBuilt (r : Reconciler) (req : Request) (lk : Lock)
           (graph : dag_state (newDag r)) (implied : list Node) : Prop :=
  Get (client r) req = Ok lk
  /\ Packages lk <> []
  /\ AddFinalizer (lock r) lk = None
  /\ Init (newDag r) (dag_new (newDag r)) (ToNodes (Packages lk))
     = (graph, Ok implied).

(** The pass takes up the dependency [d]: the graph is built and sorts, and
    [d] is the first node [Init] reported. *)
Definition firstImplied (r : Reconciler) (req : Request) (d : Dependency)
  : Prop :=
  exists lk graph rest order,
    graphBuilt r req lk graph (NodeDependency d :: rest)
    /\ Sort (newDag r) graph = Ok order.

(** The pass has the tags of [d]: its constraint parses to [c], its package
    to [ref], and the fetcher answers with [tags]. *)
Definition tagsFetched (r : Reconciler) (req : Request) (d : Dependency)
           (c : Constraints) (ref : Reference) (tags : list string) : Prop :=
  firstImplied r req d
  /\ NewConstraint (dep_Constraints d) = Ok c
  /\ ParseReference (dep_Package d) = Ok ref
  /\ Tags (fetcher r) ref = Ok tags.

(** Whenever [Init] reports nodes, the first of them is a dependency. *)
Definition firstImpliedIsDependency (r : Reconciler) (req : Request) : Prop :=
  forall lk graph first rest,
    Get (client r) req = Ok lk ->
    Init (newDag r) (dag_new (newDag r)) (ToNodes (Packages lk))
    = (graph, Ok (first :: rest)) ->
    exists d, first = NodeDependency d.

(** The package [p] is the one to create for the dependency [d], whose
    reference is [ref], at the version string [ver]. *)
Definition materializes (d : Dependency) (ref : Reference) (ver : string)
           (p : Package) : Prop :=
  ParseReference (dep_Package d) = Ok ref
  /\ pkg_Name p = ToDNSLabel (RepositoryStr (Context ref))
  /\ pkg_Source p = (RefString ref ++ ":" ++ ver)%string
  /\ (dep_Type d = ConfigurationPackageType /\ pkg_Kind p = Configuration
      \/ dep_Type d = ProviderPackageType /\ pkg_Kind p = Provider).

(** The log line every pass starts with. *)
Definition reconciling (r : Reconciler) (req : Request) : Event :=
  EvDebug (WithValues (log r) [LStr "request"; LReq req]) "Reconciling" [].

(** The three failures a pass hands back to its caller as an error: the lock
    cannot be read (and not because it is gone), the graph cannot be built,
    the graph cannot be sorted. *)
Inductive passError (r : Reconciler) (req : Request) : GoError -> Prop :=
| GetFailed (e : GoError) :
    Get (client r) req = Err e ->
    IsNotFound e = false ->
    passError r req (Wrapped e errGetLock)
| InitFailed (lk : Lock) (graph : dag_state (newDag r)) (e : GoError) :
    Get (client r) req = Ok lk ->
    Packages lk <> [] ->
    AddFinalizer (lock r) lk = None ->
    Init (newDag r) (dag_new (newDag r)) (ToNodes (Packages lk))
    = (graph, Err e) ->
    passError r req (Wrapped e errBuildDAG)
| SortFailed (lk : Lock) (graph : dag_state (newDag r))
             (implied : list Node) (e : GoError) :
    graphBuilt r req lk graph implied ->
    Sort (newDag r) graph = Err e ->
    passError r req (Wrapped e errSortDAG).

(** The same reconciler, but with a graph whose [Init], when it succeeds,
    reports [implied]. *)
Definition withImplied (r : Reconciler) (implied : list Node) : Reconciler := {|
  client := client r;
  log := log r;
  lock := lock r;
  newDag := {|
    dag_state := dag_state (newDag r);
    dag_new := dag_new (newDag r);
    Init := fun g nodes =>
              let '(g', built) := Init (newDag r) g nodes in
              (g', match built with
                   | Ok _ => Ok implied
                   | Err e => Err e
                   end);
    Sort := Sort (newDag r);
  |};
  fetcher := fetcher r;
|}.

(** The only two answers the specification lets a pass give: done, or retry
    after some duration. *)
Definition doneOrRetry (o : Outcome) : Prop :=
  done o \/ exists d, retryAfter d o.

(** An invalid package type was logged, the pass is done, nothing was
    created. *)
Definition invalidKindHandled (r : Reconciler) (req : Request) : Prop :=
  In errInvalidPackageType (map fst (debugs (passTrace r req)))
  /\ done (passOutcome r req)
  /\ creations (passTrace r req) = [].

End Stages.

(** ** The version resolver as the specification words it *)

Section ResolverSpec.

Context {semver : Semver} {gosort : GoSort semver}.

(** Step 2: every tag that parses, the others skipped. *)
Definition parsedVersions (tags : list string) : list Version :=
  flat_map (fun t => match NewVersion t with
                     | Ok v => [v]
                     | Err _ => []
                     end) tags.

(** Step 4: the last version of an ascending scan that satisfies the
    constraint. *)
Definition lastMatch (c : Constraints) (vs : list Version) : option Version :=
  last (map Some (filter (Check c) vs)) None.

(** Steps 2 to 5 and the output: the original string of the version
    selected, if there is one. *)
Definition specSelect (c : Constraints) (tags : list string) : option string :=
  option_map Original (lastMatch c (sort_Sort (parsedVersions tags))).

End ResolverSpec.

(** What the semver library and Go's sort promise.  [sort.Sort] returns a
    rearrangement of its input in which no element is [Less] than one
    before it. *)
Class SemverLaws (semver : Semver) (gosort : GoSort semver) : Prop := {
  Original_NewVersion :
    forall t v, NewVersion t = Ok v -> Original v = t;
  NewVersion_empty :
    forall v, NewVersion "" <> Ok v;
  LessThan_irrefl :
    forall v, LessThan v v = false;
  sort_Sort_permutation :
    forall vs, Permutation vs (sort_Sort vs);
  sort_Sort_sorted :
    forall vs, StronglySorted (fun a b => LessThan b a = false) (sort_Sort vs);
}.

(** ** Strings and orders

    What the stand-ins for the libraries need of Go's [strings] package, and
    the two ways of combining three-way comparisons. *)

Section Strings.

Local Open Scope char_scope.

Definition isDigit (c : ascii) : bool :=
  (48 <=? N_of_ascii c)%N && (N_of_ascii c <=? 57)%N.

Definition isLetter (c : ascii) : bool :=
  ((65 <=? N_of_ascii c)%N && (N_of_ascii c <=? 90)%N)
  || ((97 <=? N_of_ascii c)%N && (N_of_ascii c <=? 122)%N).

(** A character of a prerelease identifier. *)
Definition isIdentChar (c : ascii) : bool :=
  isDigit c || isLetter c || Ascii.eqb c "-".

Fixpoint allChars (p : ascii -> bool) (s : string) : bool :=
  match s with
  | EmptyString => true
  | String c s' => p c && allChars p s'
  end.

(** The fields of [s] between separators, as [strings.Split] gives them. *)
Fixpoint splitOn (sep : ascii) (s : string) : list string :=
  match s with
  | EmptyString => [EmptyString]
  | String c s' =>
      if Ascii.eqb c sep then EmptyString :: splitOn sep s'
      else match splitOn sep s' with
           | [] => [String c EmptyString]
           | f :: fs => String c f :: fs
           end
  end.

(** [s] up to the first separator, and what follows it if there is one. *)
Fixpoint cutAt (sep : ascii) (s : string) : string * option string :=
  match s with
  | EmptyString => (EmptyString, None)
  | String c s' =>
      if Ascii.eqb c sep then (EmptyString, Some s')
      else let '(a, b) := cutAt sep s' in (String c a, b)
  end.

Fixpoint trimLeft (s : string) : string :=
  match s with
  | String " " s' => trimLeft s'
  | _ => s
  end.

Fixpoint trimRight (s : string) : string :=
  match s with
  | EmptyString => EmptyString
  | String c s' =>
      match trimRight s' with
      | EmptyString => if Ascii.eqb c " " then EmptyString
                       else String c EmptyString
      | t => String c t
      end
  end.

Definition trimSpace (s : string) : string := trimRight (trimLeft s).

Fixpoint contains (c : ascii) (s : string) : bool :=
  match s with
  | EmptyString => false
  | String c' s' => Ascii.eqb c c' || contains c s'
  end.

End Strings.

(** Lexicographic combination of two comparisons. *)
Definition lex (c1 c2 : comparison) : comparison :=
  match c1 with
  | Eq => c2
  | _ => c1
  end.

(** Field by field; when all fields of the shorter one are equal, the
    longer one is higher. *)
Fixpoint compareList {A} (cmp : A -> A -> comparison) (xs ys : list A)
  : comparison :=
  match xs, ys with
  | [], [] => Eq
  | [], _ :: _ => Lt
  | _ :: _, [] => Gt
  | x :: xs', y :: ys' => lex (cmp x y) (compareList cmp xs' ys')
  end.

(** ** A model of the semver library

    Modelled from the spec: github.com/Masterminds/semver is not under
    src/.  A version is major.minor.patch with an optional prerelease and an
    optional leading "v", keeps its original string, and is ordered by
    major, then minor, then patch, then the prerelease rules of semantic
    versioning; a constraint is a comma separated conjunction of
    comparisons such as ">=1.2.0, <2.0.0". *)
Module SemverModel.

Local Open Scope char_scope.

Fixpoint digitsValue (acc : N) (s : string) : N :=
  match s with
  | EmptyString => acc
  | String c s' => digitsValue (acc * 10 + (N_of_ascii c - 48))%N s'
  end.

(** A non-empty run of digits. *)
Definition parseNumber (s : string) : option N :=
  match s with
  | EmptyString => None
  | _ => if allChars isDigit s then Some (digitsValue 0 s) else None
  end.

(** A prerelease identifier is numeric or alphanumeric. *)
Inductive Ident : Type :=
| Numeric (n : N)
| Alpha (s : string).

Definition parseIdent (s : string) : option Ident :=
  match s with
  | EmptyString => None
  | _ => if allChars isDigit s then Some (Numeric (digitsValue 0 s))
         else if allChars isIdentChar s then Some (Alpha s)
         else None
  end.

Fixpoint parseAll {A B} (f : A -> option B) (l : list A) : option (list B) :=
  match l with
  | [] => Some []
  | a :: l' =>
      match f a, parseAll f l' with
      | Some b, Some bs => Some (b :: bs)
      | _, _ => None
      end
  end.

Record version : Type := {
  major : N;
  minor : N;
  patch : N;
  pre : list Ident;
  original : string;
}.

Definition ErrInvalidSemVer : GoError := Failure "Invalid Semantic Version".

Definition stripV (s : string) : string :=
  match s with
  | String "v" s' => s'
  | _ => s
  end.

Definition newVersion (s : string) : result version :=
  let '(core, prerelease) := cutAt "-" (stripV s) in
  match map parseNumber (splitOn "." core) with
  | [Some ma; Some mi; Some pa] =>
      match prerelease with
      | None =>
          Ok {| major := ma; minor := mi; patch := pa; pre := [];
                original := s |}
      | Some p =>
          match parseAll parseIdent (splitOn "." p) with
          | Some ids =>
              Ok {| major := ma; minor := mi; patch := pa; pre := ids;
                    original := s |}
          | None => Err ErrInvalidSemVer
          end
      end
  | _ => Err ErrInvalidSemVer
  end.

(** Numeric identifiers are lower than alphanumeric ones; numbers compare
    as numbers, the others in ASCII order. *)
Definition compareIdent (a b : Ident) : comparison :=
  match a, b with
  | Numeric x, Numeric y => N.compare x y
  | Numeric _, Alpha _ => Lt
  | Alpha _, Numeric _ => Gt
  | Alpha x, Alpha y => String.compare x y
  end.

(** A version without prerelease is higher than one with. *)
Definition comparePrerelease (xs ys : list Ident) : comparison :=
  match xs, ys with
  | [], [] => Eq
  | [], _ :: _ => Gt
  | _ :: _, [] => Lt
  | _, _ => compareList compareIdent xs ys
  end.

Definition compare (v w : version) : comparison :=
  lex (N.compare (major v) (major w))
    (lex (N.compare (minor v) (minor w))
       (lex (N.compare (patch v) (patch w))
          (comparePrerelease (pre v) (pre w)))).

(** What the order looks at, in the order it looks at it. *)
Definition key (v : version) : N * (N * (N * list Ident)) :=
  (major v, (minor v, (patch v, pre v))).

Definition lessThan (v w : version) : bool :=
  match compare v w with
  | Lt => true
  | _ => false
  end.

Inductive operator : Type := OpEq | OpNe | OpGt | OpLt | OpGe | OpLe.

Definition holds (op : operator) (c : comparison) : bool :=
  match op, c with
  | OpEq, Eq => true
  | OpNe, (Lt | Gt) => true
  | OpGt, Gt => true
  | OpLt, Lt => true
  | OpGe, (Eq | Gt) => true
  | OpLe, (Eq | Lt) => true
  | _, _ => false
  end.

(** One comparison: the operator and the version it compares with. *)
Definition constraint : Type := (operator * version)%type.

(** The operator in front of a comparison; none means equality. *)
Definition cutOperator (s : string) : operator * string :=
  match s with
  | String ">" (String "=" r) => (OpGe, r)
  | String "<" (String "=" r) => (OpLe, r)
  | String "!" (String "=" r) => (OpNe, r)
  | String ">" r => (OpGt, r)
  | String "<" r => (OpLt, r)
  | String "=" r => (OpEq, r)
  | _ => (OpEq, s)
  end.

Definition parseConstraint (s : string) : option constraint :=
  let '(op, rest) := cutOperator (trimSpace s) in
  match newVersion (trimSpace rest) with
  | Ok v => Some (op, v)
  | Err _ => None
  end.

Definition newConstraint (s : string) : result (list constraint) :=
  match parseAll parseConstraint (splitOn "," s) with
  | Some cs => Ok cs
  | None => Err (Failure ("improper constraint: " ++ s)%string)
  end.

Definition check (cs : list constraint) (v : version) : bool :=
  forallb (fun '(op, w) => holds op (compare v w)) cs.

(** Go's [sort.Sort] sorts a short slice by insertion: each element in turn
    moves left past the elements it is [Less] than. *)
Fixpoint insert (v : version) (sorted : list version) : list version :=
  match sorted with
  | [] => [v]
  | w :: rest => if lessThan v w then v :: sorted else w :: insert v rest
  end.

Definition insertionSort (vs : list version) : list version :=
  fold_left (fun sorted v => insert v sorted) vs [].

#[export] Instance model : Semver := {|
  Version := version;
  Constraints := list constraint;
  NewVersion := newVersion;
  NewConstraint := newConstraint;
  Check := check;
  Original := original;
  LessThan := lessThan;
|}.

#[export] Instance sorter : GoSort model := {|
  sort_Sort := insertionSort;
|}.

End SemverModel.

(** ** Building a reconciler: the options and [NewReconciler] *)

(** What [NewReconciler] takes from the libraries for the fields no option
    sets: [event.Recorder] and its no-op value, the no-op logger,
    [resource.NewAPIFinalizer], [dag.NewMapDag] and [xpkg.NewNopFetcher()]. *)
Class Runtime {name : NameLib} : Type := {
  Recorder : Type;
  NewNopRecorder : Recorder;
  NewNopLogger : Logger;
  NewAPIFinalizer : Client -> string -> Finalizer;
  NewMapDag : DAG;
  NewNopFetcher : Fetcher;
}.

Section Construction.

Context {name : NameLib} {runtime : Runtime}.

(** [manager.Manager], as far as [NewReconciler] asks it. *)
Record Manager : Type := {
  GetClient : Client;
}.

(** The [Reconciler] struct with all six fields: the five that [Reconcile]
    reads, and [record], which it never reads. *)
Record Configured : Type := {
  reconciler : Reconciler;
  record : Recorder;
}.

(** [ReconcilerOption]: a function that updates the struct it is given. *)
Definition ReconcilerOption : Type := Configured -> Configured.

(** [WithLogger]: [r.log = log] *)
Definition WithLogger (l : Logger) : ReconcilerOption :=
  fun r =>
    {| reconciler := {| client := client (reconciler r);
                        log := l;
                        lock := lock (reconciler r);
                        newDag := newDag (reconciler r);
                        fetcher := fetcher (reconciler r) |};
       record := record r |}.

(** [WithRecorder]: [r.record = er] *)
Definition WithRecorder (er : Recorder) : ReconcilerOption :=
  fun r => {| reconciler := reconciler r; record := er |}.

(** [WithFinalizer]: [r.lock = f] *)
Definition WithFinalizer (f : Finalizer) : ReconcilerOption :=
  fun r =>
    {| reconciler := {| client := client (reconciler r);
                        log := log (reconciler r);
                        lock := f;
                        newDag := newDag (reconciler r);
                        fetcher := fetcher (reconciler r) |};
       record := record r |}.

(** [WithNewDagFn]: [r.newDag = f] *)
Definition WithNewDagFn (f : DAG) : ReconcilerOption :=
  fun r =>
    {| reconciler := {| client := client (reconciler r);
                        log := log (reconciler r);
                        lock := lock (reconciler r);
                        newDag := f;
                        fetcher := fetcher (reconciler r) |};
       record := record r |}.

(** [WithFetcher]: [r.fetcher = f] *)
Definition WithFetcher (f : Fetcher) : ReconcilerOption :=
  fun r =>
    {| reconciler := {| client := client (reconciler r);
                        log := log (reconciler r);
                        lock := lock (reconciler r);
                        newDag := newDag (reconciler r);
                        fetcher := f |};
       record := record r |}.

(** [NewReconciler]: the defaults, then the options in the order given. *)
Definition NewReconciler (mgr : Manager) (opts : list ReconcilerOption)
  : Configured :=
  fold_left (fun r f => f r) opts
    {| reconciler := {| client := GetClient mgr;
                        lock := NewAPIFinalizer (GetClient mgr) finalizer;
                        log := NewNopLogger;
                        newDag := NewMapDag;
                        fetcher := NewNopFetcher |};
       record := NewNopRecorder |}.

(** The options this file offers. *)
Inductive standard : ReconcilerOption -> Prop :=
| StandardLogger (l : Logger) : standard (WithLogger l)
| StandardRecorder (er : Recorder) : standard (WithRecorder er)
| StandardFinalizer (f : Finalizer) : standard (WithFinalizer f)
| StandardNewDagFn (f : DAG) : standard (WithNewDagFn f)
| StandardFetcher (f : Fetcher) : standard (WithFetcher f).

End Construction.

(** ** Shapes of a pass *)

Section Shapes.

Context {name : NameLib}.

(** The calls of a pass that got through the sort of the graph. *)
Definition graphCalls (req : Request) (lk : Lock) : Trace :=
  [EvGet req; EvAddFinalizer lk; EvInit (ToNodes (Packages lk)); EvSort].

(** The orders in which a pass may call its collaborators: each is called
    once at most, the lock is read first, and every later call comes after
    the ones listed before it. *)
Inductive callOrder (req : Request) : Trace -> Prop :=
| OrderGet :
    callOrder req [EvGet req]
| OrderRemove (lk : Lock) :
    callOrder req [EvGet req; EvRemoveFinalizer lk]
| OrderAdd (lk : Lock) :
    callOrder req [EvGet req; EvAddFinalizer lk]
| OrderInit (lk : Lock) :
    callOrder req
      [EvGet req; EvAddFinalizer lk; EvInit (ToNodes (Packages lk))]
| OrderSort (lk : Lock) :
    callOrder req (graphCalls req lk)
| OrderTags (lk : Lock) (ref : Reference) :
    callOrder req (graphCalls req lk ++ [EvTags ref])
| OrderCreate (lk : Lock) (ref : Reference) (p : Package) :
    callOrder req (graphCalls req lk ++ [EvTags ref; EvCreate p]).

(** The failures a pass answers with a requeue. *)
Definition transientFailures : list string :=
  [errRemoveFinalizer; errAddFinalizer; errFetchTags; errCreateDependency].

End Shapes.

Section Parses.

Context {semver : Semver}.

(** Whether a tag is a semantic version for the library. *)
Definition parses (tag : string) : bool :=
  match NewVersion tag with
  | Ok _ => true
  | Err _ => false
  end.

End Parses.

Section ReferenceFailure.

Context {semver : Semver} {gosort : GoSort semver} {name : NameLib}
        {xpkg : Xpkg}.

(** The failure [e] to parse the reference was logged, the pass is done, no
    tags were fetched, nothing was created. *)
Definition referenceFailureHandled (r : Reconciler) (req : Request)
           (e : GoError) : Prop :=
  In (errInvalidDependency, [LStr "error"; LErr e]) (debugs (passTrace r req))
  /\ done (passOutcome r req)
  /\ fetches (passTrace r req) = []
  /\ creations (passTrace r req) = [].

End ReferenceFailure.

(** ** Test doubles

    The collaborators of a pass are injected ([WithFinalizer],
    [WithNewDagFn], [WithFetcher], the manager's client); here they are
    replaced by canned answers, and the two libraries that only move
    strings around by small stand-ins. *)
Module Fixtures.

Local Open Scope char_scope.

(** A stand-in for the reference parser: a reference is a non-empty string
    without blanks, its registry is what precedes the first slash when that
    contains a dot or a colon. *)
Record reference : Type := {
  ref_registry : string;
  ref_repository : string;
  ref_original : string;
}.

Definition parseReference (s : string) : result reference :=
  if String.eqb s "" || contains " " s then
    Err (Failure ("could not parse reference: " ++ s)%string)
  else
    match cutAt "/" s with
    | (host, Some path) =>
        if contains "." host || contains ":" host then
          Ok {| ref_registry := host; ref_repository := path;
                ref_original := s |}
        else
          Ok {| ref_registry := "index.docker.io"; ref_repository := s;
                ref_original := s |}
    | (_, None) =>
        Ok {| ref_registry := "index.docker.io"; ref_repository := s;
              ref_original := s |}
    end.

#[export] Instance names : NameLib := {|
  Reference := reference;
  Repository := reference;
  ParseReference := parseReference;
  Context := fun r => r;
  RepositoryStr := ref_repository;
  RefString := ref_original;
|}.

(** A stand-in for [xpkg.ToDNSLabel]: lower-case letters and digits stay,
    the separators become dashes, everything else goes. *)
Fixpoint toDNSLabel (s : string) : string :=
  match s with
  | EmptyString => EmptyString
  | String c s' =>
      if isDigit c
         || ((97 <=? N_of_ascii c)%N && (N_of_ascii c <=? 122)%N)
      then String c (toDNSLabel s')
      else if Ascii.eqb c "." || Ascii.eqb c "/" || Ascii.eqb c ":"
              || Ascii.eqb c "-"
      then String "-" (toDNSLabel s')
      else toDNSLabel s'
  end.

#[export] Instance labels : Xpkg := {|
  ToDNSLabel := toDNSLabel;
|}.

Import SemverModel.

(** The canned answers of one test case. *)
Record Mocks : Type := {
  MockGet : result Lock;
  MockAddFinalizer : error;
  MockRemoveFinalizer : error;
  MockInit : result (list Node);
  MockSort : result (list string);
  MockTags : result (list string);
  MockCreate : error;
}.

Definition mockReconciler (m : Mocks) : Reconciler := {|
  client := {| Get := fun _ => MockGet m; Create := fun _ => MockCreate m |};
  log := [];
  lock := {| AddFinalizer := fun _ => MockAddFinalizer m;
             RemoveFinalizer := fun _ => MockRemoveFinalizer m |};
  newDag := {| dag_state := unit;
               dag_new := tt;
               Init := fun _ _ => (tt, MockInit m);
               Sort := fun _ => MockSort m |};
  fetcher := {| Tags := fun _ => MockTags m |};
|}.

Local Open Scope string_scope.

Definition request : Request := {| Namespace := ""; Name := "lock" |}.

Definition providerDependency (constraints : string) : Dependency := {|
  dep_Package := "registry.upbound.io/crossplane/provider-aws";
  dep_Type := ProviderPackageType;
  dep_Constraints := constraints;
|}.

Definition configuration : LockPackage := {|
  lp_Name := "platform-ref-aws-1a2b3c";
  lp_Source := "registry.upbound.io/upbound/platform-ref-aws";
  lp_Version := "v0.2.1";
  lp_Dependencies := [providerDependency ">=1.0.0,<2.0.0"];
|}.

Definition lockOf (pkgs : list LockPackage) : Lock := {|
  lock_Name := "lock";
  lock_UID := "c0ffee";
  lock_ResourceVersion := "42";
  Packages := pkgs;
|}.

(** Everything answers without error: one package, one implied
    dependency [d], the tags [tags]. *)
Definition healthy (d : Dependency) (tags : list string) : Mocks := {|
  MockGet := Ok (lockOf [configuration]);
  MockAddFinalizer := None;
  MockRemoveFinalizer := None;
  MockInit := Ok [NodeDependency d];
  MockSort := Ok [lp_Source configuration; dep_Package d];
  MockTags := Ok tags;
  MockCreate := None;
|}.

(** The tags of the specification's example of a selection. *)
Definition exampleTags : list string :=
  ["0.9.0"; "1.0.0"; "1.5.2"; "2.0.0"; "not-a-version"].

(** The constraint of that example, parsed. *)
Definition exampleConstraint : list constraint :=
  match newConstraint ">=1.0.0,<2.0.0" with
  | Ok c => c
  | Err _ => []
  end.

(** A dependency of a kind that is neither of the two. *)
Definition functionDependency : Dependency := {|
  dep_Package := "registry.upbound.io/crossplane/function-auto-ready";
  dep_Type := "Function";
  dep_Constraints := ">=1.0.0";
|}.

(** A dependency whose package is not an image reference. *)
Definition blankDependency : Dependency := {|
  dep_Package := "not an image";
  dep_Type := ProviderPackageType;
  dep_Constraints := ">=1.0.0";
|}.

(** The API server fails to answer. *)
Definition getFails : Mocks := {|
  MockGet := Err (Failure "etcdserver: request timed out");
  MockAddFinalizer := None;
  MockRemoveFinalizer := None;
  MockInit := Ok [];
  MockSort := Ok [];
  MockTags := Ok [];
  MockCreate := None;
|}.

(** The lock lists no package; [removed] is the finalizer's answer. *)
Definition emptyLock (removed : error) : Mocks := {|
  MockGet := Ok (lockOf []);
  MockAddFinalizer := None;
  MockRemoveFinalizer := removed;
  MockInit := Ok [];
  MockSort := Ok [];
  MockTags := Ok [];
  MockCreate := None;
|}.

(** The graph has a cycle, and an implied dependency as well. *)
Definition cyclic : Mocks := {|
  MockGet := Ok (lockOf [configuration]);
  MockAddFinalizer := None;
  MockRemoveFinalizer := None;
  MockInit := Ok [NodeDependency (providerDependency ">=1.0.0")];
  MockSort := Err (Failure "edge would create a cycle");
  MockTags := Ok ["1.0.0"];
  MockCreate := None;
|}.

(** The graph reports a node that is not a dependency. *)
Definition notADependency : Mocks := {|
  MockGet := Ok (lockOf [configuration]);
  MockAddFinalizer := None;
  MockRemoveFinalizer := None;
  MockInit := Ok [NodeLockPackage configuration];
  MockSort := Ok [lp_Source configuration];
  MockTags := Ok ["1.0.0"];
  MockCreate := None;
|}.

(** The registry does not answer for a dependency of an invalid kind. *)
Definition fetchFails : Mocks := {|
  MockGet := Ok (lockOf [configuration]);
  MockAddFinalizer := None;
  MockRemoveFinalizer := None;
  MockInit := Ok [NodeDependency functionDependency];
  MockSort := Ok [lp_Source configuration];
  MockTags := Err (Failure "UNAUTHORIZED: authentication required");
  MockCreate := None;
|}.

(** Two implied dependencies, the second of which would not resolve. *)
Definition twoImplied (tags : list string) : Mocks := {|
  MockGet := Ok (lockOf [configuration]);
  MockAddFinalizer := None;
  MockRemoveFinalizer := None;
  MockInit := Ok [NodeDependency (providerDependency ">=1.0.0,<2.0.0");
                  NodeDependency blankDependency];
  MockSort := Ok [lp_Source configuration];
  MockTags := Ok tags;
  MockCreate := None;
|}.

(** The lock is gone. *)
Definition lockGone : Mocks := {|
  MockGet := Err (NotFound "locks.pkg.crossplane.io lock not found");
  MockAddFinalizer := None;
  MockRemoveFinalizer := None;
  MockInit := Ok [];
  MockSort := Ok [];
  MockTags := Ok [];
  MockCreate := None;
|}.

(** The finalizer cannot be added. *)
Definition addFinalizerFails : Mocks := {|
  MockGet := Ok (lockOf [configuration]);
  MockAddFinalizer := Some (Failure "the object has been modified");
  MockRemoveFinalizer := None;
  MockInit := Ok [NodeDependency (providerDependency ">=1.0.0")];
  MockSort := Ok [lp_Source configuration];
  MockTags := Ok ["1.0.0"];
  MockCreate := None;
|}.

(** The graph cannot be built. *)
Definition initFails : Mocks := {|
  MockGet := Ok (lockOf [configuration]);
  MockAddFinalizer := None;
  MockRemoveFinalizer := None;
  MockInit := Err (Failure "node already exists");
  MockSort := Ok [lp_Source configuration];
  MockTags := Ok ["1.0.0"];
  MockCreate := None;
|}.

(** Every dependency is installed. *)
Definition resolved : Mocks := {|
  MockGet := Ok (lockOf [configuration]);
  MockAddFinalizer := None;
  MockRemoveFinalizer := None;
  MockInit := Ok [];
  MockSort := Ok [lp_Source configuration];
  MockTags := Ok ["1.0.0"];
  MockCreate := None;
|}.

(** The package exists already. *)
Definition createFails (d : Dependency) (tags : list string) : Mocks := {|
  MockGet := Ok (lockOf [configuration]);
  MockAddFinalizer := None;
  MockRemoveFinalizer := None;
  MockInit := Ok [NodeDependency d];
  MockSort := Ok [lp_Source configuration; dep_Package d];
  MockTags := Ok tags;
  MockCreate := Some (Failure "providers.pkg.crossplane.io already exists");
|}.

(** The registry does not answer for a provider. *)
Definition registryDown : Mocks := {|
  MockGet := Ok (lockOf [configuration]);
  MockAddFinalizer := None;
  MockRemoveFinalizer := None;
  MockInit := Ok [NodeDependency (providerDependency ">=1.0.0")];
  MockSort := Ok [lp_Source configuration];
  MockTags := Err (Failure "UNAUTHORIZED: authentication required");
  MockCreate := None;
|}.

(** A dependency of which neither the package nor the constraint parses. *)
Definition brokenDependency : Dependency := {|
  dep_Package := "not an image";
  dep_Type := ProviderPackageType;
  dep_Constraints := ">=banana";
|}.


(** Stand-ins for what the libraries give [NewReconciler]. *)
#[export] Instance runtime : Runtime := {|
  Recorder := list string;
  NewNopRecorder := [];
  NewNopLogger := [];
  NewAPIFinalizer := fun _ _ =>
    {| AddFinalizer := fun _ => None; RemoveFinalizer := fun _ => None |};
  NewMapDag := {| dag_state := unit;
                  dag_new := tt;
                  Init := fun _ _ => (tt, Ok []);
                  Sort := fun _ => Ok [] |};
  NewNopFetcher := {| Tags := fun _ => Ok [] |};
|}.

(** A manager whose client answers as the mocks say. *)
Definition manager (m : Mocks) : Manager :=
  {| GetClient := client (mockReconciler m) |}.

End Fixtures.

(** What makes a three-way comparison an order: swapping the arguments
    swaps the answer, equal elements compare alike with any third, and
    "lower" is transitive. *)
Class CmpLaws {A : Type} (cmp : A -> A -> comparison) : Prop := {
  cmp_antisym : forall x y, cmp y x = CompOpp (cmp x y);
  cmp_eq_compat : forall x y z, cmp x y = Eq -> cmp x z = cmp y z;
  cmp_lt_trans : forall x y z, cmp x y = Lt -> cmp y z = Lt -> cmp x z = Lt;
}.

Arguments cmp_antisym {A} cmp {_} x y.
Arguments cmp_eq_compat {A} cmp {_} x y z.
Arguments cmp_lt_trans {A} cmp {_} x y z.

(** * Properties *)

(** ** The version resolver *)

Section VersionSelection.

Context {semver : Semver} {gosort : GoSort semver}.

Lemma parseTags_from (tags : list string) (acc : list Version) :
  fold_left
    (fun vs r => match NewVersion r with
                 | Err _ => vs
                 | Ok v => vs ++ [v]
                 end) tags acc
  = acc ++ parsedVersions tags.
Proof.
  revert acc.
  induction tags as [|t tags IH]; intros acc; simpl.
  - now rewrite app_nil_r.
  - rewrite IH. destruct (NewVersion t) as [v|e]; simpl.
    + now rewrite <- app_assoc.
    + reflexivity.
Qed.

(** The loop that collects the versions keeps exactly the tags that parse,
    in their order. *)
Lemma parseTags_parsedVersions (tags : list string) :
  parseTags tags = parsedVersions tags.
Proof. unfold parseTags. now rewrite parseTags_from. Qed.

Lemma In_parsedVersions (tags : list string) (v : Version) :
  In v (parsedVersions tags) <-> exists t, In t tags /\ NewVersion t = Ok v.
Proof.
  unfold parsedVersions. rewrite in_flat_map. split.
  - intros [t [Ht Hv]]. exists t. split; [exact Ht|].
    destruct (NewVersion t) as [w|e]; simpl in Hv.
    + destruct Hv as [->|[]]. reflexivity.
    + destruct Hv.
  - intros [t [Ht Hv]]. exists t. split; [exact Ht|].
    rewrite Hv. now left.
Qed.

Lemma last_cons_default {A} (x : A) (l : list A) (d : A) :
  last (x :: l) d = last l x.
Proof.
  revert x d.
  induction l as [|y l IH]; intros x d; [reflexivity|].
  change (last (x :: y :: l) d) with (last (y :: l) d).
  now rewrite (IH y d), (IH y x).
Qed.

Lemma last_Some_default {A} (l : list A) (a : A) :
  last (map Some l) (Some a)
  = match last (map Some l) None with
    | Some w => Some w
    | None => Some a
    end.
Proof.
  revert a.
  induction l as [|w l IH]; intros a; [reflexivity|].
  change (map Some (w :: l)) with (Some w :: map Some l).
  rewrite !last_cons_default, (IH w).
  now destruct (last (map Some l) None).
Qed.

Lemma lastMatch_cons (c : Constraints) (v : Version) (vs : list Version) :
  lastMatch c (v :: vs)
  = match lastMatch c vs with
    | Some w => Some w
    | None => if Check c v then Some v else None
    end.
Proof.
  unfold lastMatch. simpl filter.
  destruct (Check c v).
  - change (map Some (v :: filter (Check c) vs))
      with (Some v :: map Some (filter (Check c) vs)).
    now rewrite last_cons_default, last_Some_default.
  - now destruct (last (map Some (filter (Check c) vs)) None).
Qed.

Lemma scanVersions_from (c : Constraints) (vs : list Version) (acc : string) :
  fold_left (fun addVer v => if Check c v then Original v else addVer) vs acc
  = match lastMatch c vs with
    | Some v => Original v
    | None => acc
    end.
Proof.
  revert acc.
  induction vs as [|v vs IH]; intros acc.
  - reflexivity.
  - simpl fold_left. rewrite IH, lastMatch_cons.
    destruct (lastMatch c vs); [reflexivity|].
    now destruct (Check c v).
Qed.

(** The scan ends on the original string of the last match, or on the empty
    string it started from. *)
Lemma scanVersions_lastMatch (c : Constraints) (vs : list Version) :
  scanVersions c vs
  = match lastMatch c vs with
    | Some v => Original v
    | None => ""
    end.
Proof. apply scanVersions_from. Qed.

(** The last match splits the list: nothing after it matches. *)
Lemma lastMatch_Some (c : Constraints) (vs : list Version) (v : Version) :
  lastMatch c vs = Some v ->
  exists before after,
    vs = before ++ v :: after /\ Check c v = true
    /\ Forall (fun w => Check c w = false) after.
Proof.
  revert v.
  induction vs as [|x vs IH]; intros v.
  - discriminate.
  - rewrite lastMatch_cons.
    destruct (lastMatch c vs) as [w|] eqn:Hw.
    + intros Hv. injection Hv as ->.
      destruct (IH v eq_refl) as [before [after [-> [Hc Hafter]]]].
      now exists (x :: before), after.
    + destruct (Check c x) eqn:Hx; [|discriminate].
      intros Hv. injection Hv as ->.
      exists [], vs. repeat split; [exact Hx|].
      clear IH. induction vs as [|y vs IH]; [constructor|].
      rewrite lastMatch_cons in Hw.
      destruct (lastMatch c vs); [discriminate|].
      destruct (Check c y) eqn:Hy; [discriminate|].
      constructor; [exact Hy|now apply IH].
Qed.

Lemma lastMatch_None (c : Constraints) (vs : list Version) :
  lastMatch c vs = None <-> Forall (fun w => Check c w = false) vs.
Proof.
  induction vs as [|x vs IH].
  - split; [constructor|reflexivity].
  - rewrite lastMatch_cons. split.
    + destruct (lastMatch c vs); [discriminate|].
      destruct (Check c x) eqn:Hx; [discriminate|].
      intros _. constructor; [exact Hx|now apply IH].
    + intros H. inversion H as [|? ? Hx Hvs]; subst.
      apply IH in Hvs. now rewrite Hvs, Hx.
Qed.

Context {laws : SemverLaws semver gosort}.

Lemma In_sorted_parsed (tags : list string) (v : Version) :
  In v (sort_Sort (parsedVersions tags))
  <-> exists t, In t tags /\ NewVersion t = Ok v.
Proof.
  rewrite <- In_parsedVersions. split; intros H.
  - eapply Permutation_in; [|exact H].
    apply Permutation_sym, sort_Sort_permutation.
  - eapply Permutation_in; [|exact H]. apply sort_Sort_permutation.
Qed.

(** In a sorted list, no element is greater than one that comes later. *)
Lemma sorted_before (before after : list Version) (v w : Version) :
  StronglySorted (fun a b => LessThan b a = false) (before ++ v :: after) ->
  In w before -> LessThan v w = false.
Proof.
  induction before as [|x before IH]; intros Hs Hw.
  - destruct Hw.
  - simpl in Hs. inversion Hs as [|? ? Hrest Hx]; subst.
    destruct Hw as [->|Hw].
    + rewrite Forall_forall in Hx. apply Hx.
      apply in_or_app. right. now left.
    + now apply IH.
Qed.

(** What the resolver selects is a version that parses from a tag,
    satisfies the constraint, and that no other such version is greater
    than. *)
Lemma lastMatch_highest (c : Constraints) (tags : list string) (v : Version) :
  lastMatch c (sort_Sort (parsedVersions tags)) = Some v ->
  (exists t, In t tags /\ NewVersion t = Ok v)
  /\ Check c v = true
  /\ forall t w, In t tags -> NewVersion t = Ok w -> Check c w = true ->
                 LessThan v w = false.
Proof.
  intros Hv.
  destruct (lastMatch_Some _ _ _ Hv) as [before [after [Hsplit [Hc Hafter]]]].
  split; [|split; [exact Hc|]].
  - apply In_sorted_parsed. rewrite Hsplit.
    apply in_or_app. right. now left.
  - intros t w Ht Hw Hcw.
    assert (Hin : In w (sort_Sort (parsedVersions tags)))
      by (apply In_sorted_parsed; now exists t).
    pose proof (sort_Sort_sorted (parsedVersions tags)) as Hs.
    rewrite Hsplit in Hin, Hs.
    apply in_app_or in Hin. destruct Hin as [Hin|[->|Hin]].
    + now apply (sorted_before before after).
    + apply LessThan_irrefl.
    + rewrite Forall_forall in Hafter. apply Hafter in Hin. congruence.
Qed.

(** Nothing is selected exactly when no tag parses to a version that
    satisfies the constraint. *)
Lemma lastMatch_nothing (c : Constraints) (tags : list string) :
  lastMatch c (sort_Sort (parsedVersions tags)) = None
  <-> forall t w, In t tags -> NewVersion t = Ok w -> Check c w = false.
Proof.
  rewrite lastMatch_None, Forall_forall. split.
  - intros H t w Ht Hw. apply H. apply In_sorted_parsed. now exists t.
  - intros H w Hin. apply In_sorted_parsed in Hin.
    destruct Hin as [t [Ht Hw]]. now apply (H t).
Qed.

(** The code and the specification select the same string. *)
Lemma selectVersion_specSelect (c : Constraints) (tags : list string) :
  selectVersion c tags
  = match specSelect c tags with
    | Some s => s
    | None => ""
    end.
Proof.
  unfold selectVersion, specSelect.
  rewrite parseTags_parsedVersions, scanVersions_lastMatch.
  now destruct (lastMatch c (sort_Sort (parsedVersions tags))).
Qed.

(** A version that parsed from a tag has that tag as its original string,
    which is not empty. *)
Lemma Original_not_empty (t : string) (v : Version) :
  NewVersion t = Ok v -> Original v <> "".
Proof.
  intros Hv Hempty.
  rewrite (Original_NewVersion _ _ Hv) in Hempty. subst t.
  exact (NewVersion_empty _ Hv).
Qed.

(** [addVer] is empty exactly when nothing matches; otherwise it is one of
    the tags, as fetched. *)
Lemma selectVersion_empty (c : Constraints) (tags : list string) :
  selectVersion c tags = ""
  <-> forall t w, In t tags -> NewVersion t = Ok w -> Check c w = false.
Proof.
  rewrite <- lastMatch_nothing, selectVersion_specSelect.
  unfold specSelect.
  destruct (lastMatch c (sort_Sort (parsedVersions tags))) as [v|] eqn:Hv;
    simpl.
  - split; [|discriminate]. intros Hempty. exfalso.
    destruct (lastMatch_highest _ _ _ Hv) as [[t [_ Ht]] _].
    exact (Original_not_empty _ _ Ht Hempty).
  - split; reflexivity.
Qed.

Lemma selectVersion_tag (c : Constraints) (tags : list string) :
  selectVersion c tags <> "" ->
  exists v, NewVersion (selectVersion c tags) = Ok v
            /\ In (selectVersion c tags) tags
            /\ Original v = selectVersion c tags
            /\ lastMatch c (sort_Sort (parsedVersions tags)) = Some v.
Proof.
  rewrite selectVersion_specSelect. unfold specSelect.
  destruct (lastMatch c (sort_Sort (parsedVersions tags))) as [v|] eqn:Hv;
    simpl; [|congruence].
  intros _.
  destruct (lastMatch_highest _ _ _ Hv) as [[t [Hin Ht]] _].
  pose proof (Original_NewVersion _ _ Ht) as Ho. rewrite Ho.
  exists v. repeat split; assumption.
Qed.

(** Either nothing is selected, no tag parsing to a version that satisfies
    the constraint, or what is selected is a tag whose version satisfies the
    constraint and is the last such version of the sorted list, below which
    every other one is. *)
Lemma selectVersion_highest (c : Constraints) (tags : list string) :
  selectVersion c tags = ""
  /\ (forall t w, In t tags -> NewVersion t = Ok w -> Check c w = false)
  \/ exists t v,
      selectVersion c tags = t
      /\ In t tags
      /\ NewVersion t = Ok v
      /\ Check c v = true
      /\ lastMatch c (sort_Sort (parsedVersions tags)) = Some v
      /\ forall t' w, In t' tags -> NewVersion t' = Ok w ->
                      Check c w = true -> LessThan v w = false.
Proof.
  destruct (String.eqb (selectVersion c tags) "") eqn:Hsel.
  - apply String.eqb_eq in Hsel. left. split; [exact Hsel|].
    now apply selectVersion_empty.
  - apply String.eqb_neq in Hsel. right.
    destruct (selectVersion_tag c tags Hsel) as [v [Hv [Hin [_ Hlast]]]].
    destruct (lastMatch_highest _ _ _ Hlast) as [_ [Hcheck Hmax]].
    exists (selectVersion c tags), v. repeat split; assumption.
Qed.

End VersionSelection.

(** ** The model of the semver library keeps the library's promises *)

Section Comparisons.

Context {A : Type} (cmp : A -> A -> comparison) {laws : CmpLaws cmp}.

Lemma cmp_refl (x : A) : cmp x x = Eq.
Proof.
  pose proof (cmp_antisym cmp x x) as H.
  destruct (cmp x x); simpl in H; congruence.
Qed.

Lemma cmp_eq_sym (x y : A) : cmp x y = Eq -> cmp y x = Eq.
Proof. intros H. now rewrite (cmp_antisym cmp x y), H. Qed.

Lemma cmp_eq_compat_r (x y z : A) : cmp y z = Eq -> cmp x y = cmp x z.
Proof.
  intros H.
  rewrite (cmp_antisym cmp y x), (cmp_antisym cmp z x).
  f_equal. symmetry. apply (cmp_eq_compat cmp). now apply cmp_eq_sym.
Qed.

Lemma cmp_le_trans (x y z : A) :
  cmp x y <> Gt -> cmp y z <> Gt -> cmp x z <> Gt.
Proof.
  intros Hxy Hyz.
  destruct (cmp x y) eqn:Exy; [| |congruence].
  - now rewrite (cmp_eq_compat cmp _ _ z Exy).
  - destruct (cmp y z) eqn:Eyz; [| |congruence].
    + rewrite <- (cmp_eq_compat_r x _ _ Eyz). congruence.
    + rewrite (cmp_lt_trans cmp _ _ _ Exy Eyz). discriminate.
Qed.

(** Comparing through a key. *)
Lemma CmpLaws_key {B : Type} (key : B -> A) :
  CmpLaws (fun x y => cmp (key x) (key y)).
Proof.
  split; intros.
  - apply (cmp_antisym cmp).
  - now apply (cmp_eq_compat cmp).
  - now apply (cmp_lt_trans cmp _ (key y)).
Qed.

(** Comparing pairs, the first component first. *)
Lemma CmpLaws_lex {B : Type} (cmpB : B -> B -> comparison)
      (lawsB : CmpLaws cmpB) :
  CmpLaws (fun p q : A * B =>
             lex (cmp (fst p) (fst q)) (cmpB (snd p) (snd q))).
Proof.
  split.
  - intros [a b] [a' b']; simpl.
    rewrite (cmp_antisym cmp a a'), (cmp_antisym cmpB b b').
    now destruct (cmp a a').
  - intros [a b] [a' b'] [a'' b'']; simpl.
    destruct (cmp a a') eqn:E; simpl; try discriminate.
    intros Hb. rewrite (cmp_eq_compat cmp _ _ a'' E).
    now rewrite (cmp_eq_compat cmpB _ _ b'' Hb).
  - intros [a b] [a' b'] [a'' b'']; simpl.
    destruct (cmp a a') eqn:E; simpl; try discriminate.
    + rewrite (cmp_eq_compat cmp _ _ a'' E).
      destruct (cmp a' a''); simpl; try discriminate; [|reflexivity].
      apply (cmp_lt_trans cmpB).
    + intros _.
      destruct (cmp a' a'') eqn:E'; simpl; try discriminate.
      * now rewrite <- (cmp_eq_compat_r a _ _ E'), E.
      * now rewrite (cmp_lt_trans cmp _ _ _ E E').
Qed.

(** Comparing lists field by field. *)
Lemma CmpLaws_compareList : CmpLaws (compareList cmp).
Proof.
  split.
  - induction x as [|a x IH]; destruct y as [|b y]; simpl; try reflexivity.
    rewrite (cmp_antisym cmp a b), (IH y). now destruct (cmp a b).
  - induction x as [|a x IH]; destruct y as [|b y]; simpl;
      try discriminate; intros z H.
    + reflexivity.
    + destruct z as [|c z]; [reflexivity|]. simpl.
      destruct (cmp a b) eqn:E; simpl in H; try discriminate.
      now rewrite (cmp_eq_compat cmp _ _ c E), (IH _ _ H).
  - induction x as [|a x IH]; destruct y as [|b y]; destruct z as [|c z];
      simpl; try discriminate; try reflexivity.
    destruct (cmp a b) eqn:E; simpl; try discriminate.
    + rewrite (cmp_eq_compat cmp _ _ c E).
      destruct (cmp b c); simpl; try discriminate; [|reflexivity].
      apply IH.
    + intros _.
      destruct (cmp b c) eqn:E'; simpl; try discriminate.
      * now rewrite <- (cmp_eq_compat_r a _ _ E'), E.
      * now rewrite (cmp_lt_trans cmp _ _ _ E E').
Qed.

End Comparisons.

Module SemverModelLaws.

Import SemverModel.

Lemma CmpLaws_N : CmpLaws N.compare.
Proof.
  split.
  - intros x y. apply N.compare_antisym.
  - intros x y z H. apply N.compare_eq in H. now subst.
  - intros x y z Hxy Hyz. rewrite N.compare_lt_iff in *. lia.
Qed.

Lemma CmpLaws_ascii : CmpLaws Ascii.compare.
Proof. exact (CmpLaws_key N.compare (laws := CmpLaws_N) N_of_ascii). Qed.

Lemma String_compare_compareList (s t : string) :
  String.compare s t
  = compareList Ascii.compare (list_ascii_of_string s)
      (list_ascii_of_string t).
Proof.
  revert t.
  induction s as [|a s IH]; destruct t as [|b t]; simpl; try reflexivity.
  rewrite IH. now destruct (Ascii.compare a b).
Qed.

Lemma CmpLaws_string : CmpLaws String.compare.
Proof.
  pose proof (CmpLaws_key (compareList Ascii.compare)
                (laws := CmpLaws_compareList Ascii.compare
                           (laws := CmpLaws_ascii))
                list_ascii_of_string) as L.
  split; intros; rewrite !String_compare_compareList in *.
  - apply (cmp_antisym _ (CmpLaws := L)).
  - now apply (cmp_eq_compat _ (CmpLaws := L)).
  - now apply (cmp_lt_trans _ (CmpLaws := L) x y z).
Qed.

Lemma CmpLaws_compareIdent : CmpLaws compareIdent.
Proof.
  pose proof CmpLaws_N as LN. pose proof CmpLaws_string as LS.
  split.
  - intros [x|x] [y|y]; simpl; try reflexivity.
    + apply (cmp_antisym N.compare).
    + apply (cmp_antisym String.compare).
  - intros [x|x] [y|y] [z|z]; simpl; try discriminate; try reflexivity.
    + apply (cmp_eq_compat N.compare).
    + apply (cmp_eq_compat String.compare).
  - intros [x|x] [y|y] [z|z]; simpl; try discriminate; try reflexivity.
    + apply (cmp_lt_trans N.compare).
    + apply (cmp_lt_trans String.compare).
Qed.

Lemma CmpLaws_comparePrerelease : CmpLaws comparePrerelease.
Proof.
  pose proof (CmpLaws_compareList compareIdent
                (laws := CmpLaws_compareIdent)) as L.
  split.
  - intros [|a x] [|b y]; try reflexivity.
    apply (cmp_antisym (compareList compareIdent)).
  - intros [|a x] [|b y] [|c z]; try discriminate; try reflexivity.
    apply (cmp_eq_compat (compareList compareIdent)).
  - intros [|a x] [|b y] [|c z]; try discriminate; try reflexivity.
    apply (cmp_lt_trans (compareList compareIdent)).
Qed.

Lemma CmpLaws_compare : CmpLaws compare.
Proof.
  pose proof CmpLaws_N as LN.
  pose proof CmpLaws_comparePrerelease as LP.
  pose proof (CmpLaws_lex N.compare comparePrerelease LP) as L1.
  pose proof (CmpLaws_lex N.compare _ L1) as L2.
  pose proof (CmpLaws_lex N.compare _ L2) as L3.
  exact (CmpLaws_key _ (laws := L3) key).
Qed.

Lemma lessThan_false (v w : version) :
  lessThan w v = false <-> compare v w <> Gt.
Proof.
  unfold lessThan.
  rewrite (cmp_antisym compare (CmpLaws := CmpLaws_compare) w v).
  destruct (compare w v); simpl; split; congruence.
Qed.

Lemma lessThan_irrefl (v : version) : lessThan v v = false.
Proof.
  unfold lessThan.
  now rewrite (cmp_refl compare (laws := CmpLaws_compare)).
Qed.

Lemma insert_permutation (v : version) (l : list version) :
  Permutation (v :: l) (insert v l).
Proof.
  induction l as [|w l IH]; simpl.
  - apply Permutation_refl.
  - destruct (lessThan v w).
    + apply Permutation_refl.
    + eapply Permutation_trans; [apply perm_swap|].
      now apply perm_skip.
Qed.

Lemma insertionSort_from_permutation (vs sorted : list version) :
  Permutation (vs ++ sorted)
    (fold_left (fun sorted v => insert v sorted) vs sorted).
Proof.
  revert sorted.
  induction vs as [|v vs IH]; intros sorted; simpl.
  - apply Permutation_refl.
  - eapply Permutation_trans; [|apply IH].
    eapply Permutation_trans; [apply Permutation_middle|].
    apply Permutation_app_head. apply insert_permutation.
Qed.

Lemma insertionSort_permutation (vs : list version) :
  Permutation vs (insertionSort vs).
Proof.
  unfold insertionSort.
  pose proof (insertionSort_from_permutation vs []) as H.
  now rewrite app_nil_r in H.
Qed.

Lemma insert_sorted (v : version) (l : list version) :
  StronglySorted (fun a b => lessThan b a = false) l ->
  StronglySorted (fun a b => lessThan b a = false) (insert v l).
Proof.
  induction l as [|w l IH]; intros Hs; simpl.
  - constructor; constructor.
  - inversion Hs as [|? ? Hl Hw]; subst.
    destruct (lessThan v w) eqn:Hvw.
    + constructor; [exact Hs|].
      assert (Hle : lessThan w v = false).
      { apply lessThan_false. unfold lessThan in Hvw.
        destruct (compare v w); congruence. }
      constructor; [exact Hle|].
      rewrite Forall_forall in *. intros x Hx.
      apply lessThan_false.
      apply (cmp_le_trans compare (laws := CmpLaws_compare) v w x).
      * now apply lessThan_false.
      * apply lessThan_false. now apply Hw.
    + constructor; [now apply IH|].
      rewrite Forall_forall in *. intros x Hx.
      apply (Permutation_in _ (Permutation_sym (insert_permutation v l)))
        in Hx.
      destruct Hx as [->|Hx]; [exact Hvw|now apply Hw].
Qed.

Lemma insertionSort_sorted (vs : list version) :
  StronglySorted (fun a b => lessThan b a = false) (insertionSort vs).
Proof.
  unfold insertionSort.
  assert (H : forall sorted,
             StronglySorted (fun a b => lessThan b a = false) sorted ->
             StronglySorted (fun a b => lessThan b a = false)
               (fold_left (fun sorted v => insert v sorted) vs sorted)).
  { induction vs as [|v vs IH]; intros sorted Hs; simpl.
    - exact Hs.
    - apply IH. now apply insert_sorted. }
  apply H. constructor.
Qed.

Lemma original_newVersion (t : string) (v : version) :
  newVersion t = Ok v -> original v = t.
Proof.
  unfold newVersion.
  destruct (cutAt "-" (stripV t)) as [core prerelease].
  destruct (map parseNumber (splitOn "." core))
    as [|[ma|] [|[mi|] [|[pa|] [|? ?]]]]; try discriminate.
  destruct prerelease as [p|].
  - destruct (parseAll parseIdent (splitOn "." p)); [|discriminate].
    intros H. injection H as <-. reflexivity.
  - intros H. injection H as <-. reflexivity.
Qed.

(** The model is a semver library in the sense of [SemverLaws]. *)
Lemma model_laws : SemverLaws model sorter.
Proof.
  split.
  - exact original_newVersion.
  - intros v. discriminate.
  - exact lessThan_irrefl.
  - exact insertionSort_permutation.
  - exact insertionSort_sorted.
Qed.

End SemverModelLaws.

(** ** One reconciliation pass *)

(** Running a pass by hand: unfold the monad, then follow the answers of
    the collaborators. *)
Ltac pass_simpl :=
  cbv beta iota zeta
    delta [bind ret emit call Debug return_ panic deref Identifier
           assertDependency negb].

Ltac pass_unfold :=
  unfold passTrace, passOutcome, reconcilePass, run, Reconcile; pass_simpl.

Ltac pass_case :=
  match goal with
  | |- context [match ?x with _ => _ end] =>
      lazymatch x with
      | context [match _ with _ => _ end] => fail
      | _ => destruct x eqn:?; pass_simpl
      end
  end.

Lemma nonempty_length {A : Type} (l : list A) :
  l <> [] -> (length l =? 0)%nat = false.
Proof. destruct l; [congruence|reflexivity]. Qed.

Lemma empty_length {A : Type} (l : list A) :
  l = [] -> (length l =? 0)%nat = true.
Proof. now intros ->. Qed.

(** From a [graphBuilt] hypothesis to the point after [Init]. *)
Ltac pass_enter H :=
  let Hget := fresh "Hget" in
  let Hne := fresh "Hne" in
  let Hadd := fresh "Hadd" in
  let Hinit := fresh "Hinit" in
  destruct H as [Hget [Hne [Hadd Hinit]]];
  apply nonempty_length in Hne;
  pass_unfold; rewrite Hget; pass_simpl; rewrite Hne; pass_simpl;
  rewrite Hadd; pass_simpl; rewrite Hinit; pass_simpl.

Section PassProperties.

Context {semver : Semver} {gosort : GoSort semver} {name : NameLib}
        {xpkg : Xpkg}.

Variables (r : Reconciler) (req : Request).

(** C7.  Finalizer lifecycle on an empty lock: when the lock lists no
    package, the pass fetches the lock, asks for the finalizer to be removed
    and calls nothing else (no graph construction, no sort, no tag fetch, no
    creation).  If the removal fails, the failure is logged and the pass asks
    to be requeued after [shortWait], thirty seconds, with a nil error; if it
    succeeds, the pass returns the empty result and a nil error. *)
Theorem finalizer_removed_on_empty_lock (lk : Lock) :
  Get (client r) req = Ok lk ->
  Packages lk = [] ->
  calls (passTrace r req) = [EvGet req; EvRemoveFinalizer lk]
  /\ creations (passTrace r req) = []
  /\ shortWait = 30000000000%Z
  /\ match RemoveFinalizer (lock r) lk with
     | Some err =>
         passOutcome r req = Returned (requeueAfter shortWait) None
         /\ debugs (passTrace r req)
            = [("Reconciling", []);
               (errRemoveFinalizer, [LStr "error"; LErr err])]
     | None =>
         passOutcome r req = Returned emptyResult None
         /\ debugs (passTrace r req) = [("Reconciling", [])]
     end.
Proof.
  intros Hget Hempty. apply empty_length in Hempty.
  pass_unfold. rewrite Hget. pass_simpl. rewrite Hempty. pass_simpl.
  destruct (RemoveFinalizer (lock r) lk); simpl; repeat split.
Qed.

(** C2.  Cycle safety: when [Sort] answers with an error on the graph
    that [Init] leaves for the lock, the pass fetches no tags and creates no
    package; and once the pass has got to the graph, the call to [Sort] is
    the last thing it does: it returns the empty result with the error
    wrapped as [errSortDAG], whatever nodes [Init] reported as implied. *)
Theorem cycle_stops_the_pass (lk : Lock) (graph : dag_state (newDag r))
        (built : result (list Node)) (e : GoError) :
  Get (client r) req = Ok lk ->
  Init (newDag r) (dag_new (newDag r)) (ToNodes (Packages lk))
  = (graph, built) ->
  Sort (newDag r) graph = Err e ->
  fetches (passTrace r req) = []
  /\ creations (passTrace r req) = []
  /\ forall implied,
       graphBuilt r req lk graph implied ->
       passTrace r req
       = [reconciling r req; EvGet req; EvAddFinalizer lk;
          EvInit (ToNodes (Packages lk)); EvSort]
       /\ passOutcome r req
          = Returned emptyResult (Some (Wrapped e errSortDAG)).
Proof.
  intros Hget Hinit Hsort. split; [|split].
  - pass_unfold. rewrite Hget. pass_simpl.
    destruct (length (Packages lk) =? 0)%nat; pass_simpl.
    + now destruct (RemoveFinalizer (lock r) lk).
    + destruct (AddFinalizer (lock r) lk); [reflexivity|].
      pass_simpl. rewrite Hinit. pass_simpl.
      destruct built; [|reflexivity].
      pass_simpl. now rewrite Hsort.
  - pass_unfold. rewrite Hget. pass_simpl.
    destruct (length (Packages lk) =? 0)%nat; pass_simpl.
    + now destruct (RemoveFinalizer (lock r) lk).
    + destruct (AddFinalizer (lock r) lk); [reflexivity|].
      pass_simpl. rewrite Hinit. pass_simpl.
      destruct built; [|reflexivity].
      pass_simpl. now rewrite Hsort.
  - intros implied Hbuilt. pass_enter Hbuilt.
    rewrite Hsort. split; reflexivity.
Qed.

Lemma length_nonempty {A : Type} (l : list A) :
  (length l =? 0)%nat = false -> l <> [].
Proof. destruct l; [discriminate|congruence]. Qed.

(** Turns the tests a pass made into the facts they established. *)
Ltac pass_facts :=
  repeat match goal with
    | H : String.eqb _ _ = true |- _ => apply String.eqb_eq in H
    | H : String.eqb _ _ = false |- _ => apply String.eqb_neq in H
    | H : (length _ =? 0)%nat = false |- _ => apply length_nonempty in H
    end.

(** Every creation comes at the end of the one path on which everything
    before it went well, and it is the only creation of the pass. *)
Lemma creation_inv (p : Package) :
  In p (creations (passTrace r req)) ->
  exists d c ref tags,
    tagsFetched r req d c ref tags
    /\ selectVersion c tags <> ""
    /\ materializes d ref (selectVersion c tags) p
    /\ creations (passTrace r req) = [p].
Proof.
  pass_unfold.
  repeat pass_case; simpl; try tauto.
  all: intros [<-|[]]; pass_facts.
  all: match goal with
       | Hi : Init _ _ _ = (_, Ok (NodeDependency ?d :: _)) |- _ => exists d
       end.
  all: do 3 eexists; split;
    [ split; [do 4 eexists; split; [repeat split|]; eassumption
             |repeat split; eassumption]
    | split; [eassumption|split; [|reflexivity]] ].
  all: unfold materializes; repeat split; try eassumption; tauto.
Qed.

(** Tags are fetched once at most, for the reference of the first implied
    dependency. *)
Lemma fetch_inv (ref : Reference) :
  In ref (fetches (passTrace r req)) ->
  exists d c,
    firstImplied r req d
    /\ NewConstraint (dep_Constraints d) = Ok c
    /\ ParseReference (dep_Package d) = Ok ref
    /\ fetches (passTrace r req) = [ref].
Proof.
  pass_unfold.
  repeat pass_case; simpl; try tauto.
  all: intros [<-|[]]; pass_facts.
  all: match goal with
       | Hi : Init _ _ _ = (_, Ok (NodeDependency ?d :: _)) |- _ => exists d
       end.
  all: eexists; split;
    [ do 4 eexists; split; [repeat split|]; eassumption
    | repeat split; eassumption ].
Qed.

(** The pass as far as the first implied dependency. *)
Ltac pass_first H :=
  let lk := fresh "lk" in
  let graph := fresh "graph" in
  let rest := fresh "rest" in
  let order := fresh "order" in
  let Hbuilt := fresh "Hbuilt" in
  let Hsort := fresh "Hsort" in
  destruct H as [lk [graph [rest [order [Hbuilt Hsort]]]]];
  pass_enter Hbuilt; rewrite Hsort; pass_simpl.

Lemma graphBuilt_unique (lk lk' : Lock) (graph graph' : dag_state (newDag r))
      (implied implied' : list Node) :
  graphBuilt r req lk graph implied ->
  graphBuilt r req lk' graph' implied' ->
  lk = lk' /\ graph = graph' /\ implied = implied'.
Proof.
  intros [Hget [_ [_ Hinit]]] [Hget' [_ [_ Hinit']]].
  rewrite Hget in Hget'. injection Hget' as <-.
  rewrite Hinit in Hinit'. now injection Hinit' as <- <-.
Qed.

Lemma firstImplied_unique (d d' : Dependency) :
  firstImplied r req d -> firstImplied r req d' -> d = d'.
Proof.
  intros [lk [graph [rest [order [Hb _]]]]]
         [lk' [graph' [rest' [order' [Hb' _]]]]].
  destruct (graphBuilt_unique _ _ _ _ _ _ Hb Hb') as [_ [_ Heq]].
  now injection Heq.
Qed.

Lemma firstImplied_first (d : Dependency) (lk : Lock)
      (graph : dag_state (newDag r)) (first : Node) (rest : list Node) :
  firstImplied r req d ->
  graphBuilt r req lk graph (first :: rest) ->
  first = NodeDependency d.
Proof.
  intros [lk' [graph' [rest' [order' [Hb' _]]]]] Hb.
  destruct (graphBuilt_unique _ _ _ _ _ _ Hb Hb') as [_ [_ Heq]].
  now injection Heq.
Qed.

(** A pass creates one package at most. *)
Lemma at_most_one_creation : (length (creations (passTrace r req)) <= 1)%nat.
Proof.
  destruct (creations (passTrace r req)) as [|p ps] eqn:Hc; simpl; [lia|].
  destruct (creation_inv p) as [_ [_ [_ [_ [_ [_ [_ Hone]]]]]]].
  - rewrite Hc. now left.
  - rewrite Hc in Hone. injection Hone as ->. simpl. lia.
Qed.

(** What a pass does is the same whatever follows the first implied node. *)
Lemma only_first_implied_matters (lk : Lock) (graph : dag_state (newDag r))
      (first : Node) (rest others : list Node) :
  graphBuilt r req lk graph (first :: rest) ->
  reconcilePass (withImplied r (first :: others)) req = reconcilePass r req.
Proof.
  intros [Hget [Hne [Hadd Hinit]]]. apply nonempty_length in Hne.
  unfold reconcilePass, run, Reconcile, withImplied.
  cbn [client lock log newDag fetcher dag_state dag_new Init Sort].
  pass_simpl. rewrite Hget. pass_simpl. rewrite Hne. pass_simpl.
  rewrite Hadd. pass_simpl. rewrite Hinit. pass_simpl.
  reflexivity.
Qed.

(** C3.  Single-step progress: in a pass whose graph is built and sorts
    without error and whose [Init] reported at least one implied node, at
    most one package is created; a package that is created is the one for
    the first implied node ([implied[0]]): that node is a dependency, the
    package has the name derived from its reference, its kind, and as source
    its reference with the version selected among its tags.  Tags are
    fetched at most once, for that same dependency.  The nodes after the
    first play no part: replacing them by any others leaves the trace and
    the outcome of the pass unchanged. *)
Theorem single_step_progress (lk : Lock) (graph : dag_state (newDag r))
        (first : Node) (rest : list Node) (order : list string) :
  graphBuilt r req lk graph (first :: rest) ->
  Sort (newDag r) graph = Ok order ->
  (length (creations (passTrace r req)) <= 1)%nat
  /\ (forall p, In p (creations (passTrace r req)) ->
        exists d c ref tags,
          first = NodeDependency d
          /\ tagsFetched r req d c ref tags
          /\ materializes d ref (selectVersion c tags) p)
  /\ (forall ref, In ref (fetches (passTrace r req)) ->
        fetches (passTrace r req) = [ref]
        /\ exists d, first = NodeDependency d
                     /\ ParseReference (dep_Package d) = Ok ref)
  /\ (forall others,
        reconcilePass (withImplied r (first :: others)) req
        = reconcilePass r req).
Proof.
  intros Hbuilt Hsort.
  split; [apply at_most_one_creation|]. split; [|split].
  - intros p Hp.
    destruct (creation_inv p Hp) as [d [c [ref [tags [Hf [_ [Hm _]]]]]]].
    exists d, c, ref, tags. split; [|split; assumption].
    destruct Hf as [Hfirst _].
    exact (firstImplied_first _ _ _ _ _ Hfirst Hbuilt).
  - intros ref Href.
    destruct (fetch_inv ref Href) as [d [c [Hfirst [_ [Hparse Hone]]]]].
    split; [exact Hone|].
    exists d. split; [|exact Hparse].
    exact (firstImplied_first _ _ _ _ _ Hfirst Hbuilt).
  - intros others. exact (only_first_implied_matters _ _ _ _ _ Hbuilt).
Qed.

(** Each of the three failures comes back as the error of the pass, with
    the empty result. *)
Lemma passError_returned (e : GoError) :
  passError r req e -> passOutcome r req = Returned emptyResult (Some e).
Proof.
  intros [e' Hget Hnf|lk graph e' Hget Hne Hadd Hinit|lk graph implied e' Hb Hs].
  - pass_unfold. rewrite Hget. pass_simpl. simpl. now rewrite Hnf.
  - apply nonempty_length in Hne.
    pass_unfold. rewrite Hget. pass_simpl. rewrite Hne. pass_simpl.
    rewrite Hadd. pass_simpl. rewrite Hinit. reflexivity.
  - pass_enter Hb. rewrite Hs. reflexivity.
Qed.

(** C4, as the code has it.  Return values: a pass in which the first
    implied node, if there is one, is a dependency returns the empty result
    with a nil error, or a requeue after [shortWait] with a nil error, or
    the empty result with a non-nil error; the last happens exactly for the
    three failures of [passError]: the lock cannot be read for another
    reason than its absence, the graph cannot be built, or it cannot be
    sorted. *)
Theorem return_values :
  firstImpliedIsDependency r req ->
  (passOutcome r req = Returned emptyResult None
   \/ passOutcome r req = Returned (requeueAfter shortWait) None
   \/ exists e, passError r req e
                /\ passOutcome r req = Returned emptyResult (Some e))
  /\ (forall e, passError r req e ->
                passOutcome r req = Returned emptyResult (Some e)).
Proof.
  intros Hdep. split; [|exact passError_returned].
  destruct (Get (client r) req) as [lk|e] eqn:Hget.
  2:{ destruct (IsNotFound e) eqn:Hnf.
      - left. pass_unfold. rewrite Hget. pass_simpl. simpl. now rewrite Hnf.
      - right. right. exists (Wrapped e errGetLock).
        assert (He : passError r req (Wrapped e errGetLock))
          by now constructor.
        split; [exact He|now apply passError_returned]. }
  destruct (length (Packages lk) =? 0)%nat eqn:Hlen.
  { pass_unfold. rewrite Hget. pass_simpl. rewrite Hlen. pass_simpl.
    destruct (RemoveFinalizer (lock r) lk); simpl; tauto. }
  destruct (AddFinalizer (lock r) lk) as [e|] eqn:Hadd.
  { pass_unfold. rewrite Hget. pass_simpl. rewrite Hlen. pass_simpl.
    rewrite Hadd. simpl. tauto. }
  destruct (Init (newDag r) (dag_new (newDag r)) (ToNodes (Packages lk)))
    as [graph [implied|e]] eqn:Hinit.
  2:{ right. right. exists (Wrapped e errBuildDAG).
      assert (He : passError r req (Wrapped e errBuildDAG)).
      { apply (InitFailed r req lk graph e); try assumption.
        now apply length_nonempty. }
      split; [exact He|now apply passError_returned]. }
  assert (Hbuilt : graphBuilt r req lk graph implied).
  { repeat split; try assumption. now apply length_nonempty. }
  destruct (Sort (newDag r) graph) as [order|e] eqn:Hsort.
  2:{ right. right. exists (Wrapped e errSortDAG).
      assert (He : passError r req (Wrapped e errSortDAG))
        by now apply (SortFailed r req lk graph implied e).
      split; [exact He|now apply passError_returned]. }
  destruct implied as [|first rest].
  { left. pass_enter Hbuilt. now rewrite Hsort. }
  destruct (Hdep lk graph first rest Hget Hinit) as [d ->].
  pass_enter Hbuilt. rewrite Hsort. pass_simpl.
  repeat pass_case; simpl; tauto.
Qed.

(** When the first node [Init] reports is not a dependency, the pass reads
    the identifier through the nil pointer the failed assertion left, and
    panics before it logs anything about the node. *)
Lemma failed_assertion_panics (lk : Lock) (graph : dag_state (newDag r))
      (first : Node) (rest : list Node) (order : list string) :
  graphBuilt r req lk graph (first :: rest) ->
  snd (assertDependency first) = false ->
  Sort (newDag r) graph = Ok order ->
  passOutcome r req = Panicked nilDereference
  /\ passTrace r req
     = [reconciling r req; EvGet req; EvAddFinalizer lk;
        EvInit (ToNodes (Packages lk)); EvSort].
Proof.
  intros Hbuilt Hfailed Hsort. pass_enter Hbuilt. rewrite Hsort. pass_simpl.
  destruct first; try discriminate Hfailed; split; reflexivity.
Qed.

(** C10, as the code has it.  Unparseable image reference: when the
    package of the first implied dependency does not parse as an image
    reference, the pass returns the empty result with a nil error, fetches
    no tags and creates no package.  It logs one failure after its opening
    line: the parse error under [errInvalidDependency] when the constraint
    of the dependency parses, and otherwise the error of the constraint
    under [errInvalidConstraint], the constraint being looked at first. *)
Theorem unparseable_reference (d : Dependency) (e : GoError) :
  firstImplied r req d ->
  ParseReference (dep_Package d) = Err e ->
  passOutcome r req = Returned emptyResult None
  /\ fetches (passTrace r req) = []
  /\ creations (passTrace r req) = []
  /\ debugs (passTrace r req)
     = [("Reconciling", []);
        match NewConstraint (dep_Constraints d) with
        | Ok _ => (errInvalidDependency, [LStr "error"; LErr e])
        | Err e' => (errInvalidConstraint, [LStr "error"; LErr e'])
        end].
Proof.
  intros Hfirst Href. pass_first Hfirst.
  destruct (NewConstraint (dep_Constraints d)); pass_simpl.
  - rewrite Href. simpl. repeat split.
  - simpl. repeat split.
Qed.

(** When a version is selected for a dependency of one of the two kinds,
    the pass asks for exactly one package, the one for that dependency at
    that version, and is done if the creation succeeds and asks to be
    requeued if it does not. *)
Lemma dependency_materialized (d : Dependency) (c : Constraints)
      (ref : Reference) (tags : list string) :
  tagsFetched r req d c ref tags ->
  selectVersion c tags <> "" ->
  dep_Type d = ConfigurationPackageType
  \/ dep_Type d = ProviderPackageType ->
  exists p,
    creations (passTrace r req) = [p]
    /\ materializes d ref (selectVersion c tags) p
    /\ passOutcome r req
       = match Create (client r) p with
         | None => Returned emptyResult None
         | Some _ => Returned (requeueAfter shortWait) None
         end.
Proof.
  intros [Hfirst [Hc [Href Htags]]] Hsel Hkind.
  apply String.eqb_neq in Hsel.
  assert (Hkinds :
    exists k,
      (dep_Type d = ConfigurationPackageType /\ k = Configuration
       \/ dep_Type d = ProviderPackageType /\ k = Provider)).
  { destruct Hkind; [exists Configuration|exists Provider]; tauto. }
  destruct Hkinds as [k Hk].
  exists (SetSource
            (SetName (newPackage k) (ToDNSLabel (RepositoryStr (Context ref))))
            (packageTagFmt (RefString ref) (selectVersion c tags))).
  split; [|split].
  - pass_first Hfirst. rewrite Hc. pass_simpl. rewrite Href. pass_simpl.
    rewrite Htags. pass_simpl. rewrite Hsel. pass_simpl.
    destruct Hk as [[Ht ->]|[Ht ->]]; rewrite Ht;
      change (String.eqb ConfigurationPackageType ConfigurationPackageType)
        with true;
      change (String.eqb ProviderPackageType ConfigurationPackageType)
        with false;
      change (String.eqb ProviderPackageType ProviderPackageType)
        with true;
      pass_simpl;
      match goal with
      | |- context [Create (client r) ?p] => now destruct (Create (client r) p)
      end.
  - unfold materializes. simpl. tauto.
  - pass_first Hfirst. rewrite Hc. pass_simpl. rewrite Href. pass_simpl.
    rewrite Htags. pass_simpl. rewrite Hsel. pass_simpl.
    destruct Hk as [[Ht ->]|[Ht ->]]; rewrite Ht;
      change (String.eqb ConfigurationPackageType ConfigurationPackageType)
        with true;
      change (String.eqb ProviderPackageType ConfigurationPackageType)
        with false;
      change (String.eqb ProviderPackageType ProviderPackageType)
        with true;
      pass_simpl;
      match goal with
      | |- context [Create (client r) ?p] => now destruct (Create (client r) p)
      end.
Qed.

Context {laws : SemverLaws semver gosort}.

(** When the tags of the first implied dependency are fetched and none of
    them parses to a version that satisfies its constraint, the pass logs
    [errNoValidVersion] with an error that names the dependency and the
    constraint, returns the empty result with a nil error, and creates no
    package. *)
Lemma no_valid_version (d : Dependency) (c : Constraints) (ref : Reference)
      (tags : list string) :
  tagsFetched r req d c ref tags ->
  (forall t v, In t tags -> NewVersion t = Ok v -> Check c v = false) ->
  debugs (passTrace r req)
  = [("Reconciling", []);
     (errNoValidVersion,
      [LErr (Failure (errNoValidVersionFmt (dep_Package d)
                        (dep_Constraints d)))])]
  /\ passOutcome r req = Returned emptyResult None
  /\ creations (passTrace r req) = [].
Proof.
  intros [Hfirst [Hc [Href Htags]]] Hnone.
  apply selectVersion_empty in Hnone.
  pass_first Hfirst. rewrite Hc. pass_simpl. rewrite Href. pass_simpl.
  rewrite Htags. pass_simpl. rewrite Hnone. simpl. repeat split.
Qed.

(** The source of a created package is the reference of the dependency,
    a colon, and one of the fetched tags exactly as fetched: the tag whose
    version was selected, which is what [Original] gives back. *)
Lemma created_source (p : Package) :
  In p (creations (passTrace r req)) ->
  exists d c ref tags t v,
    tagsFetched r req d c ref tags
    /\ In t tags
    /\ NewVersion t = Ok v
    /\ Check c v = true
    /\ Original v = t
    /\ selectVersion c tags = t
    /\ pkg_Source p = (RefString ref ++ ":" ++ t)%string.
Proof.
  intros Hp.
  destruct (creation_inv p Hp) as [d [c [ref [tags [Hf [Hne [Hm _]]]]]]].
  destruct (selectVersion_tag c tags Hne) as [v [Hv [Hin [Ho Hlast]]]].
  destruct (lastMatch_highest _ _ _ Hlast) as [_ [Hcheck _]].
  destruct Hm as [_ [_ [Hsrc _]]].
  exists d, c, ref, tags, (selectVersion c tags), v.
  split; [exact Hf|]. repeat split; assumption.
Qed.

(** C9, as the code has it.  Invalid dependency kind: for a first implied
    dependency whose kind is neither Configuration nor Provider no package
    is created; and when its constraint and its package parse, its tags are
    fetched and one of them satisfies the constraint, the pass logs
    [errInvalidPackageType] and returns the empty result with a nil
    error. *)
Theorem invalid_kind_after_resolution (d : Dependency) :
  firstImplied r req d ->
  dep_Type d <> ConfigurationPackageType ->
  dep_Type d <> ProviderPackageType ->
  creations (passTrace r req) = []
  /\ forall c ref tags,
       tagsFetched r req d c ref tags ->
       (exists t v, In t tags /\ NewVersion t = Ok v /\ Check c v = true) ->
       debugs (passTrace r req)
       = [("Reconciling", []); (errInvalidPackageType, [])]
       /\ passOutcome r req = Returned emptyResult None.
Proof.
  intros Hfirst Hconf Hprov. split.
  - destruct (creations (passTrace r req)) as [|p ps] eqn:Hcreated;
      [reflexivity|exfalso].
    destruct (creation_inv p) as [d' [c [ref [tags [Hf [_ [Hm _]]]]]]].
    { rewrite Hcreated. now left. }
    destruct Hf as [Hfirst' _].
    rewrite (firstImplied_unique _ _ Hfirst Hfirst') in Hconf, Hprov.
    destruct Hm as [_ [_ [_ [[Hk _]|[Hk _]]]]]; contradiction.
  - intros c ref tags [_ [Hc [Href Htags]]] [t [v [Hin [Hv Hcheck]]]].
    assert (Hsel : String.eqb (selectVersion c tags) "" = false).
    { apply String.eqb_neq. intros Hempty.
      rewrite selectVersion_empty in Hempty.
      rewrite (Hempty t v Hin Hv) in Hcheck. discriminate. }
    apply String.eqb_neq in Hconf, Hprov.
    pass_first Hfirst. rewrite Hc. pass_simpl. rewrite Href. pass_simpl.
    rewrite Htags. pass_simpl. rewrite Hsel. pass_simpl.
    rewrite Hconf, Hprov. simpl. split; reflexivity.
Qed.

End PassProperties.

(** ** The pass on the model of the semver library and the test doubles *)

Section Examples.

Import SemverModel SemverModelLaws Fixtures.

Local Existing Instance model_laws.

(** C1.  Version selection.  For every semver library that keeps its
    promises, every constraint string that parses and every list of tags:
    the versions collected are those of the tags that parse, the others
    being skipped; they are scanned as a sorted rearrangement, in which no
    version is lower than one before it; what is selected is what the
    specification describes, the original string of the last version of the
    sorted list that satisfies the constraint, or nothing; and when
    something is selected it is one of the tags, its version satisfies the
    constraint, and no version that parses from a tag and satisfies the
    constraint is greater.  In the model of the library, the constraint
    ">=1.0.0,<2.0.0" selects "1.5.2" among the tags 0.9.0, 1.0.0, 1.5.2,
    2.0.0 and not-a-version, in whatever order they are fetched. *)
Theorem version_selection :
  (forall (semver : Semver) (gosort : GoSort semver),
      SemverLaws semver gosort ->
      forall (s : string) (c : Constraints) (tags : list string),
        NewConstraint s = Ok c ->
        parseTags tags = parsedVersions tags
        /\ Permutation (parseTags tags) (sort_Sort (parseTags tags))
        /\ StronglySorted (fun a b => LessThan b a = false)
             (sort_Sort (parseTags tags))
        /\ selectVersion c tags
           = match specSelect c tags with
             | Some t => t
             | None => ""
             end
        /\ (selectVersion c tags = ""
            /\ (forall t w, In t tags -> NewVersion t = Ok w ->
                            Check c w = false)
            \/ exists t v,
                selectVersion c tags = t
                /\ In t tags
                /\ NewVersion t = Ok v
                /\ Check c v = true
                /\ lastMatch c (sort_Sort (parsedVersions tags)) = Some v
                /\ forall t' w, In t' tags -> NewVersion t' = Ok w ->
                                Check c w = true -> LessThan v w = false))
  /\ (exists c : Constraints,
         NewConstraint ">=1.0.0,<2.0.0" = Ok c
         /\ selectVersion c exampleTags = "1.5.2"
         /\ forall tags, Permutation exampleTags tags ->
                         selectVersion c tags = "1.5.2").
Proof.
  split.
  - intros semver gosort laws s c tags _.
    split; [apply parseTags_parsedVersions|].
    split; [apply sort_Sort_permutation|].
    split; [apply sort_Sort_sorted|].
    split; [apply selectVersion_specSelect|].
    apply selectVersion_highest.
  - destruct (NewConstraint ">=1.0.0,<2.0.0") as [c|] eqn:Hc;
      [|discriminate].
    exists c. split; [reflexivity|].
    injection Hc as <-.
    split; [reflexivity|].
    intros tags Hperm.
    match goal with
    | |- selectVersion ?c tags = _ =>
        destruct (selectVersion_highest (laws := model_laws) c tags)
          as [[_ Hnone]|[t [v [Hsel [Hin [Hv [Hcheck [_ Hmax]]]]]]]]
    end.
    + exfalso.
      assert (H152 : In "1.5.2" tags).
      { apply (Permutation_in _ Hperm). simpl. tauto. }
      specialize (Hnone "1.5.2" _ H152 eq_refl). discriminate.
    + rewrite Hsel.
      assert (H152 : In "1.5.2" tags).
      { apply (Permutation_in _ Hperm). simpl. tauto. }
      apply (Permutation_in _ (Permutation_sym Hperm)) in Hin.
      simpl in Hin.
      destruct Hin as [<-|[<-|[<-|[<-|[<-|[]]]]]];
        try reflexivity;
        try (injection Hv as <-; discriminate);
        try discriminate.
      injection Hv as <-.
      specialize (Hmax "1.5.2" _ H152 eq_refl eq_refl). discriminate.
Qed.

(** C5.  The failing input: the graph reports a lock package as its first
    implied node.  The pass panics on the nil pointer of the failed type
    assertion; the failure is not logged and nothing is returned. *)
Theorem failed_assertion_panics_at_lock_package :
  passOutcome (mockReconciler notADependency) request
  = Panicked nilDereference
  /\ debugs (passTrace (mockReconciler notADependency) request)
     = [("Reconciling", [])]
  /\ creations (passTrace (mockReconciler notADependency) request) = [].
Proof. repeat split. Qed.

(** C6.  No valid version: for every semver library that keeps its
    promises, when the constraint of the first implied dependency parses,
    its tags are fetched and no tag parses to a version that satisfies the
    constraint (no tag may parse at all), the pass logs [errNoValidVersion]
    with an error naming the dependency and the constraint, returns the
    empty result with a nil error (no requeue) and creates no package.  In
    the model of the library this is what happens for the constraint
    ">=3.0.0" and the tags 1.0.0 and 2.0.0. *)
Theorem no_valid_version_handling :
  (forall (semver : Semver) (gosort : GoSort semver) (name : NameLib)
          (xpkg : Xpkg),
      SemverLaws semver gosort ->
      forall (r : Reconciler) (req : Request) (d : Dependency)
             (c : Constraints) (ref : Reference) (tags : list string),
        tagsFetched r req d c ref tags ->
        (forall t v, In t tags -> NewVersion t = Ok v -> Check c v = false) ->
        debugs (passTrace r req)
        = [("Reconciling", []);
           (errNoValidVersion,
            [LErr (Failure (errNoValidVersionFmt (dep_Package d)
                              (dep_Constraints d)))])]
        /\ passOutcome r req = Returned emptyResult None
        /\ creations (passTrace r req) = [])
  /\ (let r := mockReconciler
                 (healthy (providerDependency ">=3.0.0") ["1.0.0"; "2.0.0"]) in
      debugs (passTrace r request)
      = [("Reconciling", []);
         ("cannot find a valid version for package constraints",
          [LErr (Failure
                   ("dependency (registry.upbound.io/crossplane/provider-aws)"
                    ++ " does not have version in constraints (>=3.0.0)"))])]
      /\ passOutcome r request = Returned emptyResult None
      /\ creations (passTrace r request) = []).
Proof.
  split.
  - intros semver gosort name xpkg laws r req d c ref tags Hfetched Hnone.
    exact (no_valid_version r req d c ref tags Hfetched Hnone).
  - repeat split.
Qed.

(** C8.  Original-string round trip: for every semver library that keeps
    its promises, the source of every package a pass creates is the
    reference of the dependency, a colon, and the selected tag exactly as
    it was fetched, which is the [Original] of the selected version.  In
    the model of the library the tag "v1.2.0" gives a source that ends in
    ":v1.2.0", not in the ":1.2.0" of the version written anew. *)
Theorem created_source_keeps_original_tag :
  (forall (semver : Semver) (gosort : GoSort semver) (name : NameLib)
          (xpkg : Xpkg),
      SemverLaws semver gosort ->
      forall (r : Reconciler) (req : Request) (p : Package),
        In p (creations (passTrace r req)) ->
        exists d c ref tags t v,
          tagsFetched r req d c ref tags
          /\ In t tags
          /\ NewVersion t = Ok v
          /\ Check c v = true
          /\ Original v = t
          /\ selectVersion c tags = t
          /\ pkg_Source p = (RefString ref ++ ":" ++ t)%string)
  /\ creations
       (passTrace
          (mockReconciler
             (healthy (providerDependency ">=1.0.0") ["1.1.0"; "v1.2.0"]))
          request)
     = [{| pkg_Kind := Provider;
           pkg_Name := "crossplane-provider-aws";
           pkg_Source :=
             "registry.upbound.io/crossplane/provider-aws:v1.2.0" |}]
  /\ "registry.upbound.io/crossplane/provider-aws:v1.2.0"
     <> "registry.upbound.io/crossplane/provider-aws:1.2.0".
Proof.
  split; [|split].
  - intros semver gosort name xpkg laws r req p Hcreated.
    exact (created_source r req p Hcreated).
  - reflexivity.
  - discriminate.
Qed.

(** C4, as the specification states it, fails when the API server does not
    answer: the pass returns the error, wrapped. *)
Lemma return_values_counterexample :
  passOutcome (mockReconciler getFails) request
  = Returned emptyResult
      (Some (Wrapped (Failure "etcdserver: request timed out") errGetLock))
  /\ ~ doneOrRetry (passOutcome (mockReconciler getFails) request).
Proof.
  split; [reflexivity|].
  intros [H|[d H]]; discriminate H.
Qed.

(** C9, as the specification states it, fails when the registry does not
    answer: the dependency is of an invalid kind, but the pass asks to be
    requeued and logs the fetch failure, not the invalid kind. *)
Lemma invalid_kind_counterexample :
  firstImplied (mockReconciler fetchFails) request functionDependency
  /\ dep_Type functionDependency <> ConfigurationPackageType
  /\ dep_Type functionDependency <> ProviderPackageType
  /\ passOutcome (mockReconciler fetchFails) request
     = Returned (requeueAfter shortWait) None
  /\ ~ invalidKindHandled (mockReconciler fetchFails) request.
Proof.
  split.
  { exists (lockOf [configuration]), tt, [], [lp_Source configuration].
    repeat split. discriminate. }
  split; [discriminate|]. split; [discriminate|]. split; [reflexivity|].
  intros [_ [H _]]. discriminate H.
Qed.

(** The specification's example: constraint and tags. *)
Lemma version_selection_witness :
  NewConstraint ">=1.0.0,<2.0.0" = Ok exampleConstraint
  /\ selectVersion exampleConstraint exampleTags
     = match specSelect exampleConstraint exampleTags with
       | Some t => t
       | None => ""
       end.
Proof.
  split; [reflexivity|].
  exact (proj1 (proj2 (proj2 (proj2
           (proj1 version_selection model sorter model_laws
              ">=1.0.0,<2.0.0" exampleConstraint exampleTags eq_refl))))).
Defined.

(** A lock whose graph has a cycle, and an implied dependency as well. *)
Lemma cycle_stops_the_pass_witness :
  Sort (newDag (mockReconciler cyclic)) tt
  = Err (Failure "edge would create a cycle")
  /\ creations (passTrace (mockReconciler cyclic) request) = []
  /\ passOutcome (mockReconciler cyclic) request
     = Returned emptyResult
         (Some (Wrapped (Failure "edge would create a cycle") errSortDAG)).
Proof.
  pose proof (cycle_stops_the_pass (mockReconciler cyclic) request
                (lockOf [configuration]) tt
                (Ok [NodeDependency (providerDependency ">=1.0.0")])
                (Failure "edge would create a cycle")
                eq_refl eq_refl eq_refl) as [_ [Hnone Hreached]].
  assert (Hbuilt : graphBuilt (mockReconciler cyclic) request
                     (lockOf [configuration]) tt
                     [NodeDependency (providerDependency ">=1.0.0")]).
  { repeat split. discriminate. }
  split; [reflexivity|]. split; [exact Hnone|].
  exact (proj2 (Hreached _ Hbuilt)).
Defined.

(** Two implied dependencies: only the first is resolved, and dropping
    the second changes nothing. *)
Lemma single_step_progress_witness :
  Sort (newDag (mockReconciler (twoImplied exampleTags))) tt
  = Ok [lp_Source configuration]
  /\ (length (creations
                (passTrace (mockReconciler (twoImplied exampleTags))
                   request)) <= 1)%nat
  /\ reconcilePass
       (withImplied (mockReconciler (twoImplied exampleTags))
          [NodeDependency (providerDependency ">=1.0.0,<2.0.0")])
       request
     = reconcilePass (mockReconciler (twoImplied exampleTags)) request.
Proof.
  assert (Hbuilt : graphBuilt (mockReconciler (twoImplied exampleTags))
                     request (lockOf [configuration]) tt
                     [NodeDependency (providerDependency ">=1.0.0,<2.0.0");
                      NodeDependency blankDependency]).
  { repeat split. discriminate. }
  pose proof (single_step_progress (mockReconciler (twoImplied exampleTags))
                request (lockOf [configuration]) tt _ _
                [lp_Source configuration] Hbuilt eq_refl) as Hstep.
  split; [reflexivity|]. split; [exact (proj1 Hstep)|].
  exact (proj2 (proj2 (proj2 Hstep)) []).
Defined.

(** A pass that ends on an invalid kind. *)
Lemma return_values_witness :
  firstImpliedIsDependency (mockReconciler (healthy functionDependency []))
    request
  /\ (passOutcome (mockReconciler (healthy functionDependency [])) request
      = Returned emptyResult None
      \/ passOutcome (mockReconciler (healthy functionDependency [])) request
         = Returned (requeueAfter shortWait) None
      \/ exists e,
           passError (mockReconciler (healthy functionDependency []))
             request e
           /\ passOutcome (mockReconciler (healthy functionDependency []))
                request
              = Returned emptyResult (Some e)).
Proof.
  assert (Hdep : firstImpliedIsDependency
                   (mockReconciler (healthy functionDependency [])) request).
  { intros lk graph first rest _ Hinit.
    injection Hinit as _ <- _. now exists functionDependency. }
  split; [exact Hdep|].
  exact (proj1 (return_values
                  (mockReconciler (healthy functionDependency [])) request
                  Hdep)).
Defined.

(** The specification's example: no tag reaches 3.0.0. *)
Lemma no_valid_version_handling_witness :
  passOutcome
    (mockReconciler
       (healthy (providerDependency ">=3.0.0") ["1.0.0"; "2.0.0"]))
    request
  = Returned emptyResult None.
Proof.
  assert (Hfetched :
    tagsFetched
      (mockReconciler
         (healthy (providerDependency ">=3.0.0") ["1.0.0"; "2.0.0"]))
      request (providerDependency ">=3.0.0")
      (match newConstraint ">=3.0.0" with Ok c => c | Err _ => [] end)
      (match parseReference "registry.upbound.io/crossplane/provider-aws"
       with
       | Ok ref => ref
       | Err _ => {| ref_registry := ""; ref_repository := "";
                     ref_original := "" |}
       end)
      ["1.0.0"; "2.0.0"]).
  { split; [|repeat split].
    exists (lockOf [configuration]), tt, [],
      [lp_Source configuration;
       dep_Package (providerDependency ">=3.0.0")].
    repeat split. discriminate. }
  assert (Hnone : forall t v, In t ["1.0.0"; "2.0.0"] ->
                              NewVersion t = Ok v ->
                              Check
                                (match newConstraint ">=3.0.0" with
                                 | Ok c => c
                                 | Err _ => []
                                 end) v = false).
  { intros t v [<-|[<-|[]]] Hv; injection Hv as <-; reflexivity. }
  exact (proj1 (proj2
           (proj1 no_valid_version_handling model sorter names labels
              model_laws _ request _ _ _ _ Hfetched Hnone))).
Defined.

(** A lock without packages whose finalizer is removed. *)
Lemma finalizer_removed_on_empty_lock_witness :
  Packages (lockOf []) = []
  /\ calls (passTrace (mockReconciler (emptyLock None)) request)
     = [EvGet request; EvRemoveFinalizer (lockOf [])].
Proof.
  split; [reflexivity|].
  exact (proj1 (finalizer_removed_on_empty_lock
                  (mockReconciler (emptyLock None)) request (lockOf [])
                  eq_refl eq_refl)).
Defined.

(** The tag v1.2.0 comes back as it was fetched. *)
Lemma created_source_keeps_original_tag_witness :
  exists (d : Dependency) (c : Constraints) (ref : Reference)
         (tags : list string) (t : string) (v : Version),
    tagsFetched (mockReconciler (healthy (providerDependency ">=1.0.0")
                                   ["1.1.0"; "v1.2.0"])) request d c ref tags
    /\ In t tags
    /\ NewVersion t = Ok v
    /\ Check c v = true
    /\ Original v = t
    /\ selectVersion c tags = t
    /\ "registry.upbound.io/crossplane/provider-aws:v1.2.0"
       = (RefString ref ++ ":" ++ t)%string.
Proof.
  exact (proj1 created_source_keeps_original_tag model sorter names labels
           model_laws
           (mockReconciler (healthy (providerDependency ">=1.0.0")
                              ["1.1.0"; "v1.2.0"]))
           request
           {| pkg_Kind := Provider;
              pkg_Name := "crossplane-provider-aws";
              pkg_Source :=
                "registry.upbound.io/crossplane/provider-aws:v1.2.0" |}
           (or_introl eq_refl)).
Defined.

(** A dependency of kind Function whose version resolves. *)
Lemma invalid_kind_after_resolution_witness :
  firstImplied (mockReconciler (healthy functionDependency ["1.0.0"]))
    request functionDependency
  /\ creations
       (passTrace (mockReconciler (healthy functionDependency ["1.0.0"]))
          request)
     = []
  /\ debugs
       (passTrace (mockReconciler (healthy functionDependency ["1.0.0"]))
          request)
     = [("Reconciling", []); (errInvalidPackageType, [])].
Proof.
  assert (Hfirst : firstImplied
                     (mockReconciler (healthy functionDependency ["1.0.0"]))
                     request functionDependency).
  { exists (lockOf [configuration]), tt, [],
      [lp_Source configuration; dep_Package functionDependency].
    repeat split. discriminate. }
  assert (Hconf : dep_Type functionDependency <> ConfigurationPackageType)
    by discriminate.
  assert (Hprov : dep_Type functionDependency <> ProviderPackageType)
    by discriminate.
  pose proof (invalid_kind_after_resolution
                (mockReconciler (healthy functionDependency ["1.0.0"]))
                request functionDependency Hfirst Hconf Hprov)
    as [Hnone Hlogged].
  split; [exact Hfirst|]. split; [exact Hnone|].
  refine (proj1 (Hlogged
                   (match newConstraint ">=1.0.0" with
                    | Ok c => c
                    | Err _ => []
                    end)
                   {| ref_registry := "registry.upbound.io";
                      ref_repository := "crossplane/function-auto-ready";
                      ref_original := dep_Package functionDependency |}
                   ["1.0.0"] _ _)).
  - split; [exact Hfirst|]. repeat split.
  - exists "1.0.0".
    exists {| major := 1; minor := 0; patch := 0; pre := [];
              original := "1.0.0" |}.
    repeat split. now left.
Defined.

(** A dependency whose package has a blank in it. *)
Lemma unparseable_reference_witness :
  ParseReference (dep_Package blankDependency)
  = Err (Failure "could not parse reference: not an image")
  /\ fetches
       (passTrace (mockReconciler (healthy blankDependency ["1.0.0"]))
          request)
     = [].
Proof.
  split; [reflexivity|].
  assert (Hfirst : firstImplied
                     (mockReconciler (healthy blankDependency ["1.0.0"]))
                     request blankDependency).
  { exists (lockOf [configuration]), tt, [],
      [lp_Source configuration; dep_Package blankDependency].
    repeat split. discriminate. }
  exact (proj1 (proj2
           (unparseable_reference
              (mockReconciler (healthy blankDependency ["1.0.0"]))
              request blankDependency
              (Failure "could not parse reference: not an image")
              Hfirst eq_refl))).
Defined.

End Examples.

(** * Further properties of the pass and of the construction *)

(** ** The branches of [Reconcile] *)

(** The pass as far as the first implied dependency, from a [firstImplied]
    hypothesis. *)
Ltac pass_reach H :=
  let lk := fresh "lk" in
  let graph := fresh "graph" in
  let rest := fresh "rest" in
  let order := fresh "order" in
  let Hbuilt := fresh "Hbuilt" in
  let Hsort := fresh "Hsort" in
  destruct H as [lk [graph [rest [order [Hbuilt Hsort]]]]];
  pass_enter Hbuilt; rewrite Hsort; pass_simpl.

Lemma requeue_not_empty : requeueAfter shortWait <> emptyResult.
Proof. discriminate. Qed.

Section Branches.

Context {semver : Semver} {gosort : GoSort semver} {name : NameLib}
        {xpkg : Xpkg}.

Variables (r : Reconciler) (req : Request).

(** X1.  When the lock cannot be read, reading it is the only call of the
    pass and the failure is logged under [errGetLock]; the pass returns the
    empty result, with a nil error when the lock is not found and with the
    error wrapped as [errGetLock] otherwise. *)
Theorem lock_not_read (e : GoError) :
  Get (client r) req = Err e ->
  passTrace r req
  = [reconciling r req; EvGet req;
     EvDebug (WithValues (log r) [LStr "request"; LReq req]) errGetLock
       [LStr "error"; LErr e]]
  /\ passOutcome r req
     = Returned emptyResult
         (if IsNotFound e then None else Some (Wrapped e errGetLock)).
Proof.
  intros Hget. pass_unfold. rewrite Hget. pass_simpl. simpl.
  split; [reflexivity|]. now destruct (IsNotFound e).
Qed.

(** X2.  When the lock lists packages and the finalizer cannot be added,
    the pass stops there: it has read the lock and tried the finalizer,
    builds no graph, logs the failure under [errAddFinalizer] and asks to be
    requeued after [shortWait] with a nil error. *)
Theorem finalizer_not_added (lk : Lock) (e : GoError) :
  Get (client r) req = Ok lk ->
  Packages lk <> [] ->
  AddFinalizer (lock r) lk = Some e ->
  calls (passTrace r req) = [EvGet req; EvAddFinalizer lk]
  /\ debugs (passTrace r req)
     = [("Reconciling", []); (errAddFinalizer, [LStr "error"; LErr e])]
  /\ passOutcome r req = Returned (requeueAfter shortWait) None.
Proof.
  intros Hget Hne Hadd. apply nonempty_length in Hne.
  pass_unfold. rewrite Hget. pass_simpl. rewrite Hne. pass_simpl.
  rewrite Hadd. simpl. repeat split.
Qed.

(** X3.  When [Init] fails, the graph is not sorted: the pass has read the
    lock, added the finalizer and called [Init], and returns the error
    wrapped as [errBuildDAG] without logging it. *)
Theorem graph_not_built (lk : Lock) (graph : dag_state (newDag r))
        (e : GoError) :
  Get (client r) req = Ok lk ->
  Packages lk <> [] ->
  AddFinalizer (lock r) lk = None ->
  Init (newDag r) (dag_new (newDag r)) (ToNodes (Packages lk))
  = (graph, Err e) ->
  calls (passTrace r req)
  = [EvGet req; EvAddFinalizer lk; EvInit (ToNodes (Packages lk))]
  /\ debugs (passTrace r req) = [("Reconciling", [])]
  /\ passOutcome r req = Returned emptyResult (Some (Wrapped e errBuildDAG)).
Proof.
  intros Hget Hne Hadd Hinit. apply nonempty_length in Hne.
  pass_unfold. rewrite Hget. pass_simpl. rewrite Hne. pass_simpl.
  rewrite Hadd. pass_simpl. rewrite Hinit. simpl. repeat split.
Qed.

(** X4.  When the graph is built and sorts and [Init] reported no implied
    node, the pass is done after the sort: it fetches no tags, creates no
    package, logs nothing but its opening line and returns the empty result
    with a nil error. *)
Theorem nothing_implied (lk : Lock) (graph : dag_state (newDag r))
        (order : list string) :
  graphBuilt r req lk graph [] ->
  Sort (newDag r) graph = Ok order ->
  calls (passTrace r req) = graphCalls req lk
  /\ debugs (passTrace r req) = [("Reconciling", [])]
  /\ passOutcome r req = Returned emptyResult None.
Proof.
  intros Hbuilt Hsort. pass_enter Hbuilt. rewrite Hsort. simpl.
  repeat split.
Qed.

(** X5.  When the constraint of the first implied dependency does not
    parse, the pass logs the parse error under [errInvalidConstraint] and
    returns the empty result with a nil error; it fetches no tags and
    creates no package. *)
Theorem invalid_constraint (d : Dependency) (e : GoError) :
  firstImplied r req d ->
  NewConstraint (dep_Constraints d) = Err e ->
  debugs (passTrace r req)
  = [("Reconciling", []); (errInvalidConstraint, [LStr "error"; LErr e])]
  /\ passOutcome r req = Returned emptyResult None
  /\ fetches (passTrace r req) = []
  /\ creations (passTrace r req) = [].
Proof.
  intros Hfirst Hc. pass_reach Hfirst. rewrite Hc. simpl. repeat split.
Qed.

(** X6.  When the tags of the first implied dependency cannot be fetched,
    the pass logs the failure under [errFetchTags] and asks to be requeued
    after [shortWait] with a nil error; the fetch is its last call and no
    package is created. *)
Theorem tags_not_fetched (d : Dependency) (c : Constraints) (ref : Reference)
        (e : GoError) :
  firstImplied r req d ->
  NewConstraint (dep_Constraints d) = Ok c ->
  ParseReference (dep_Package d) = Ok ref ->
  Tags (fetcher r) ref = Err e ->
  debugs (passTrace r req)
  = [("Reconciling", []); (errFetchTags, [LStr "error"; LErr e])]
  /\ passOutcome r req = Returned (requeueAfter shortWait) None
  /\ fetches (passTrace r req) = [ref]
  /\ creations (passTrace r req) = [].
Proof.
  intros Hfirst Hc Href Htags. pass_reach Hfirst.
  rewrite Hc. pass_simpl. rewrite Href. pass_simpl. rewrite Htags.
  simpl. repeat split.
Qed.

(** X8.  In every pass the collaborators are called in one order: the lock
    is read first; then either the finalizer is removed and nothing more, or
    the finalizer is added, the graph built, the graph sorted, the tags
    fetched and the package created, each step only after all the ones
    before it, and each at most once. *)
Theorem calls_in_order : callOrder req (calls (passTrace r req)).
Proof.
  pass_unfold.
  repeat pass_case; simpl;
    first [ apply OrderGet
          | apply OrderRemove
          | apply OrderAdd
          | apply OrderInit
          | apply OrderSort
          | apply OrderTags
          | apply OrderCreate ].
Qed.

(** X10.  Every pass logs its opening line first and at most one line
    after it. *)
Theorem one_failure_logged :
  exists rest,
    debugs (passTrace r req) = ("Reconciling", []) :: rest
    /\ (length rest <= 1)%nat.
Proof.
  pass_unfold.
  repeat pass_case; simpl; eexists; (split; [reflexivity|]); simpl; lia.
Qed.

End Branches.

Section Outcomes.

Context {semver : Semver} {gosort : GoSort semver} {name : NameLib}
        {xpkg : Xpkg}.

(** X9.  A pass asks to be requeued after [shortWait], with a nil error,
    exactly when it logged one of the four failures of
    [transientFailures]: the finalizer could not be removed or added, the
    tags could not be fetched, the package could not be created.  A pass
    that returns gives the empty result or that requeue, and never a requeue
    together with an error. *)
Theorem requeue_on_transient_failure (r : Reconciler) (req : Request) :
  (passOutcome r req = Returned (requeueAfter shortWait) None
   <-> exists m kvs,
         In m transientFailures /\ In (m, kvs) (debugs (passTrace r req)))
  /\ forall res err,
       passOutcome r req = Returned res err ->
       res = emptyResult \/ res = requeueAfter shortWait /\ err = None.
Proof.
  split.
  - pass_unfold.
    repeat pass_case; simpl; split;
      try (intros H; discriminate H);
      try (intros _; eexists _, _; split;
           [|right; left; reflexivity]; simpl; tauto);
      try (intros _; reflexivity);
      intros [m [kvs [Hm Hin]]]; exfalso;
      unfold transientFailures in Hm; simpl in Hm;
      repeat (destruct Hin as [Hin|Hin];
              [injection Hin as <- <-;
               repeat (destruct Hm as [Hm|Hm]; [discriminate Hm|]);
               exact Hm|]);
      exact Hin.
  - pass_unfold.
    repeat pass_case; simpl; intros res err H; try discriminate H;
      injection H as <- <-; tauto.
Qed.






Context {laws : SemverLaws semver gosort}.

(** X7.  When the tags of the first implied dependency are fetched, one of
    them satisfies its constraint and its kind is Configuration or Provider,
    the pass asks for exactly one package: the one named after the
    repository of the dependency, of its kind, whose source is its
    reference and the selected tag.  If the creation succeeds the pass
    returns the empty result and logs nothing more; if it fails the pass
    logs the failure under [errCreateDependency] and asks to be requeued
    after [shortWait].  The error is nil in both cases. *)
Theorem dependency_created (r : Reconciler) (req : Request) (d : Dependency)
        (c : Constraints) (ref : Reference) (tags : list string) :
  tagsFetched r req d c ref tags ->
  (exists t v, In t tags /\ NewVersion t = Ok v /\ Check c v = true) ->
  dep_Type d = ConfigurationPackageType
  \/ dep_Type d = ProviderPackageType ->
  exists p,
    creations (passTrace r req) = [p]
    /\ materializes d ref (selectVersion c tags) p
    /\ In (selectVersion c tags) tags
    /\ match Create (client r) p with
       | None =>
           passOutcome r req = Returned emptyResult None
           /\ debugs (passTrace r req) = [("Reconciling", [])]
       | Some e =>
           passOutcome r req = Returned (requeueAfter shortWait) None
           /\ debugs (passTrace r req)
              = [("Reconciling", []);
                 (errCreateDependency, [LStr "error"; LErr e])]
       end.
Proof.
  intros Hfetched [t [v [Hin [Hv Hcheck]]]] Hkind.
  assert (Hsel : selectVersion c tags <> "").
  { intros Hempty. rewrite selectVersion_empty in Hempty.
    rewrite (Hempty t v Hin Hv) in Hcheck. discriminate. }
  destruct (selectVersion_tag c tags Hsel) as [_ [_ [Htag _]]].
  destruct Hfetched as [Hfirst [Hc [Href Htags]]].
  apply String.eqb_neq in Hsel.
  assert (Hkinds :
    exists k,
      (dep_Type d = ConfigurationPackageType /\ k = Configuration
       \/ dep_Type d = ProviderPackageType /\ k = Provider)).
  { destruct Hkind; [exists Configuration|exists Provider]; tauto. }
  destruct Hkinds as [k Hk].
  exists (SetSource
            (SetName (newPackage k) (ToDNSLabel (RepositoryStr (Context ref))))
            (packageTagFmt (RefString ref) (selectVersion c tags))).
  assert (Hm : materializes d ref (selectVersion c tags)
                 (SetSource
                    (SetName (newPackage k)
                       (ToDNSLabel (RepositoryStr (Context ref))))
                    (packageTagFmt (RefString ref) (selectVersion c tags)))).
  { unfold materializes. simpl. tauto. }
  pass_reach Hfirst. rewrite Hc. pass_simpl. rewrite Href. pass_simpl.
  rewrite Htags. pass_simpl. rewrite Hsel. pass_simpl.
  destruct Hk as [[Ht ->]|[Ht ->]]; rewrite Ht;
    change (String.eqb ConfigurationPackageType ConfigurationPackageType)
      with true;
    change (String.eqb ProviderPackageType ConfigurationPackageType)
      with false;
    change (String.eqb ProviderPackageType ProviderPackageType)
      with true;
    pass_simpl;
    match goal with
    | |- context [Create (client r) ?p] => destruct (Create (client r) p)
    end; simpl;
    (split; [reflexivity|split; [exact Hm|split; [exact Htag|]]]);
    split; reflexivity.
Qed.

End Outcomes.

(** ** Tags that are not versions *)

Section Tags.

Context {semver : Semver} {gosort : GoSort semver}.

Lemma parsedVersions_app (tags1 tags2 : list string) :
  parsedVersions (tags1 ++ tags2)
  = parsedVersions tags1 ++ parsedVersions tags2.
Proof. unfold parsedVersions. apply flat_map_app. Qed.

Lemma parsedVersions_junk (junk : list string) :
  Forall (fun t => parses t = false) junk -> parsedVersions junk = [].
Proof.
  induction 1 as [|t junk Ht _ IH]; [reflexivity|].
  simpl. unfold parses in Ht.
  destruct (NewVersion t); [discriminate|exact IH].
Qed.

Lemma parsedVersions_filter (tags : list string) :
  parsedVersions (filter parses tags) = parsedVersions tags.
Proof.
  induction tags as [|t tags IH]; [reflexivity|].
  simpl. unfold parses at 1.
  destruct (NewVersion t) as [v|e] eqn:Hv; simpl.
  - now rewrite Hv, IH.
  - exact IH.
Qed.

(** X13.  Tags that are not semantic versions have no part in the
    selection: dropping all of them from the fetched tags, or adding any
    number of them anywhere, selects the same version. *)
Theorem unparseable_tags_ignored (c : Constraints) (tags : list string) :
  selectVersion c (filter parses tags) = selectVersion c tags
  /\ forall before junk after,
       tags = before ++ after ->
       Forall (fun t => parses t = false) junk ->
       selectVersion c (before ++ junk ++ after) = selectVersion c tags.
Proof.
  unfold selectVersion. split.
  - now rewrite !parseTags_parsedVersions, parsedVersions_filter.
  - intros before junk after -> Hjunk.
    rewrite !parseTags_parsedVersions, !parsedVersions_app.
    now rewrite (parsedVersions_junk junk Hjunk).
Qed.

End Tags.

(** ** [NewReconciler] and its options *)

Section Options.

Context {name : NameLib} {runtime : Runtime}.

Lemma NewReconciler_app (mgr : Manager) (earlier later : list ReconcilerOption) :
  NewReconciler mgr (earlier ++ later)
  = fold_left (fun r f => f r) later (NewReconciler mgr earlier).
Proof. unfold NewReconciler. apply fold_left_app. Qed.

(** A field that no option of a list touches is after the list what it was
    before. *)
Lemma options_preserve {A : Type} (get : Configured -> A)
      (opts : list ReconcilerOption) (r : Configured) :
  (forall o, In o opts -> forall r', get (o r') = get r') ->
  get (fold_left (fun r f => f r) opts r) = get r.
Proof.
  revert r.
  induction opts as [|o opts IH]; intros r Hkeep; [reflexivity|].
  simpl. rewrite IH.
  - apply Hkeep. now left.
  - intros o' Ho'. apply Hkeep. now right.
Qed.

(** X14.  The last option wins: the value an option gives to a field is
    the value of that field in the reconciler built, whatever options come
    before it, as long as no option for the same field comes after it among
    the options of this file. *)
Theorem last_option_wins (mgr : Manager)
        (earlier later : list ReconcilerOption) :
  Forall standard later ->
  (forall l,
      (forall l', ~ In (WithLogger l') later) ->
      log (reconciler (NewReconciler mgr (earlier ++ WithLogger l :: later)))
      = l)
  /\ (forall er,
         (forall er', ~ In (WithRecorder er') later) ->
         record (NewReconciler mgr (earlier ++ WithRecorder er :: later))
         = er)
  /\ (forall f,
         (forall f', ~ In (WithFinalizer f') later) ->
         lock (reconciler
                 (NewReconciler mgr (earlier ++ WithFinalizer f :: later)))
         = f)
  /\ (forall f,
         (forall f', ~ In (WithNewDagFn f') later) ->
         newDag (reconciler
                   (NewReconciler mgr (earlier ++ WithNewDagFn f :: later)))
         = f)
  /\ (forall f,
         (forall f', ~ In (WithFetcher f') later) ->
         fetcher (reconciler
                    (NewReconciler mgr (earlier ++ WithFetcher f :: later)))
         = f).
Proof.
  intros Hstd. rewrite Forall_forall in Hstd.
  repeat split; intros v Hlast; rewrite NewReconciler_app; simpl fold_left.
  - rewrite (options_preserve (fun c => log (reconciler c))); [reflexivity|].
    intros o Ho r'. destruct (Hstd o Ho); try reflexivity.
    exfalso. exact (Hlast _ Ho).
  - rewrite (options_preserve record); [reflexivity|].
    intros o Ho r'. destruct (Hstd o Ho); try reflexivity.
    exfalso. exact (Hlast _ Ho).
  - rewrite (options_preserve (fun c => lock (reconciler c))); [reflexivity|].
    intros o Ho r'. destruct (Hstd o Ho); try reflexivity.
    exfalso. exact (Hlast _ Ho).
  - rewrite (options_preserve (fun c => newDag (reconciler c)));
      [reflexivity|].
    intros o Ho r'. destruct (Hstd o Ho); try reflexivity.
    exfalso. exact (Hlast _ Ho).
  - rewrite (options_preserve (fun c => fetcher (reconciler c)));
      [reflexivity|].
    intros o Ho r'. destruct (Hstd o Ho); try reflexivity.
    exfalso. exact (Hlast _ Ho).
Qed.

(** X15.  A reconciler built with options of this file talks to the
    manager's client, whatever the options; and every field that no option
    of the list sets has its default: the finalizer of that client named
    [finalizer], the no-op logger, the no-op recorder, the map graph, the
    no-op fetcher. *)
Theorem defaults_unless_set (mgr : Manager) (opts : list ReconcilerOption) :
  Forall standard opts ->
  client (reconciler (NewReconciler mgr opts)) = GetClient mgr
  /\ ((forall l, ~ In (WithLogger l) opts) ->
      log (reconciler (NewReconciler mgr opts)) = NewNopLogger)
  /\ ((forall er, ~ In (WithRecorder er) opts) ->
      record (NewReconciler mgr opts) = NewNopRecorder)
  /\ ((forall f, ~ In (WithFinalizer f) opts) ->
      lock (reconciler (NewReconciler mgr opts))
      = NewAPIFinalizer (GetClient mgr) "lock.pkg.crossplane.io")
  /\ ((forall f, ~ In (WithNewDagFn f) opts) ->
      newDag (reconciler (NewReconciler mgr opts)) = NewMapDag)
  /\ ((forall f, ~ In (WithFetcher f) opts) ->
      fetcher (reconciler (NewReconciler mgr opts)) = NewNopFetcher).
Proof.
  intros Hstd. rewrite Forall_forall in Hstd.
  unfold NewReconciler. repeat split.
  - rewrite (options_preserve (fun c => client (reconciler c)));
      [reflexivity|].
    intros o Ho r'. now destruct (Hstd o Ho).
  - intros Hnone.
    rewrite (options_preserve (fun c => log (reconciler c))); [reflexivity|].
    intros o Ho r'. destruct (Hstd o Ho); try reflexivity.
    exfalso. exact (Hnone _ Ho).
  - intros Hnone.
    rewrite (options_preserve record); [reflexivity|].
    intros o Ho r'. destruct (Hstd o Ho); try reflexivity.
    exfalso. exact (Hnone _ Ho).
  - intros Hnone.
    rewrite (options_preserve (fun c => lock (reconciler c))); [reflexivity|].
    intros o Ho r'. destruct (Hstd o Ho); try reflexivity.
    exfalso. exact (Hnone _ Ho).
  - intros Hnone.
    rewrite (options_preserve (fun c => newDag (reconciler c)));
      [reflexivity|].
    intros o Ho r'. destruct (Hstd o Ho); try reflexivity.
    exfalso. exact (Hnone _ Ho).
  - intros Hnone.
    rewrite (options_preserve (fun c => fetcher (reconciler c)));
      [reflexivity|].
    intros o Ho r'. destruct (Hstd o Ho); try reflexivity.
    exfalso. exact (Hnone _ Ho).
Qed.

End Options.

(** ** The further properties on the test doubles *)

Section MoreExamples.

Import SemverModel SemverModelLaws Fixtures.

Local Existing Instance model_laws.

(** A lock that is gone is not an error. *)
Lemma lock_not_read_witness :
  passOutcome (mockReconciler lockGone) request = Returned emptyResult None.
Proof.
  exact (proj2 (lock_not_read (mockReconciler lockGone) request
                  (NotFound "locks.pkg.crossplane.io lock not found")
                  eq_refl)).
Defined.

(** A conflict on the lock when the finalizer is added. *)
Lemma finalizer_not_added_witness :
  Packages (lockOf [configuration]) <> []
  /\ calls (passTrace (mockReconciler addFinalizerFails) request)
     = [EvGet request; EvAddFinalizer (lockOf [configuration])].
Proof.
  assert (Hne : Packages (lockOf [configuration]) <> []) by discriminate.
  split; [exact Hne|].
  exact (proj1 (finalizer_not_added (mockReconciler addFinalizerFails)
                  request (lockOf [configuration])
                  (Failure "the object has been modified")
                  eq_refl Hne eq_refl)).
Defined.

(** A graph that rejects its nodes. *)
Lemma graph_not_built_witness :
  passOutcome (mockReconciler initFails) request
  = Returned emptyResult
      (Some (Wrapped (Failure "node already exists") errBuildDAG)).
Proof.
  assert (Hne : Packages (lockOf [configuration]) <> []) by discriminate.
  exact (proj2 (proj2
           (graph_not_built (mockReconciler initFails) request
              (lockOf [configuration]) tt (Failure "node already exists")
              eq_refl Hne eq_refl eq_refl))).
Defined.

(** A lock whose dependencies are all installed. *)
Lemma nothing_implied_witness :
  graphBuilt (mockReconciler resolved) request (lockOf [configuration]) tt []
  /\ passOutcome (mockReconciler resolved) request
     = Returned emptyResult None.
Proof.
  assert (Hbuilt : graphBuilt (mockReconciler resolved) request
                     (lockOf [configuration]) tt []).
  { repeat split. discriminate. }
  split; [exact Hbuilt|].
  exact (proj2 (proj2
           (nothing_implied (mockReconciler resolved) request
              (lockOf [configuration]) tt [lp_Source configuration]
              Hbuilt eq_refl))).
Defined.

(** A constraint that compares with something that is no version. *)
Lemma invalid_constraint_witness :
  NewConstraint (dep_Constraints (providerDependency ">=banana"))
  = Err (Failure "improper constraint: >=banana")
  /\ fetches
       (passTrace
          (mockReconciler (healthy (providerDependency ">=banana") ["1.0.0"]))
          request)
     = [].
Proof.
  split; [reflexivity|].
  assert (Hfirst :
    firstImplied
      (mockReconciler (healthy (providerDependency ">=banana") ["1.0.0"]))
      request (providerDependency ">=banana")).
  { exists (lockOf [configuration]), tt, [],
      [lp_Source configuration;
       dep_Package (providerDependency ">=banana")].
    repeat split. discriminate. }
  exact (proj1 (proj2 (proj2
           (invalid_constraint
              (mockReconciler
                 (healthy (providerDependency ">=banana") ["1.0.0"]))
              request (providerDependency ">=banana")
              (Failure "improper constraint: >=banana") Hfirst eq_refl)))).
Defined.

(** A registry that asks for credentials. *)
Lemma tags_not_fetched_witness :
  firstImplied (mockReconciler registryDown) request
    (providerDependency ">=1.0.0")
  /\ passOutcome (mockReconciler registryDown) request
     = Returned (requeueAfter shortWait) None.
Proof.
  assert (Hfirst : firstImplied (mockReconciler registryDown) request
                     (providerDependency ">=1.0.0")).
  { exists (lockOf [configuration]), tt, [], [lp_Source configuration].
    repeat split. discriminate. }
  split; [exact Hfirst|].
  exact (proj1 (proj2
           (tags_not_fetched (mockReconciler registryDown) request
              (providerDependency ">=1.0.0")
              (match newConstraint ">=1.0.0" with
               | Ok c => c
               | Err _ => []
               end)
              {| ref_registry := "registry.upbound.io";
                 ref_repository := "crossplane/provider-aws";
                 ref_original :=
                   "registry.upbound.io/crossplane/provider-aws" |}
              (Failure "UNAUTHORIZED: authentication required")
              Hfirst eq_refl eq_refl eq_refl))).
Defined.

(** Any pass that returns: here the one that could not fetch the tags. *)
Lemma requeue_on_transient_failure_witness :
  requeueAfter shortWait = emptyResult
  \/ requeueAfter shortWait = requeueAfter shortWait /\ @None GoError = None.
Proof.
  exact (proj2 (requeue_on_transient_failure (mockReconciler registryDown)
                  request)
           (requeueAfter shortWait) None eq_refl).
Defined.



(** The package exists already: one creation, of 1.5.2, and a requeue. *)
Lemma dependency_created_witness :
  exists p,
    creations
      (passTrace
         (mockReconciler
            (createFails (providerDependency ">=1.0.0,<2.0.0") exampleTags))
         request)
    = [p]
    /\ pkg_Source p = "registry.upbound.io/crossplane/provider-aws:1.5.2".
Proof.
  assert (Hfetched :
    tagsFetched
      (mockReconciler
         (createFails (providerDependency ">=1.0.0,<2.0.0") exampleTags))
      request (providerDependency ">=1.0.0,<2.0.0") exampleConstraint
      {| ref_registry := "registry.upbound.io";
         ref_repository := "crossplane/provider-aws";
         ref_original := "registry.upbound.io/crossplane/provider-aws" |}
      exampleTags).
  { split; [|repeat split].
    exists (lockOf [configuration]), tt, [],
      [lp_Source configuration;
       dep_Package (providerDependency ">=1.0.0,<2.0.0")].
    repeat split. discriminate. }
  assert (Hmatch :
    exists t v, In t exampleTags /\ NewVersion t = Ok v
                /\ Check exampleConstraint v = true).
  { exists "1.0.0".
    exists {| major := 1; minor := 0; patch := 0; pre := [];
              original := "1.0.0" |}.
    repeat split. right. now left. }
  destruct (dependency_created _ request _ _ _ _ Hfetched Hmatch
              (or_intror eq_refl))
    as [p [Hone [[_ [_ [Hsource _]]] _]]].
  exists p. split; [exact Hone|exact Hsource].
Defined.

(** The tag "latest" between two versions. *)
Lemma unparseable_tags_ignored_witness :
  selectVersion exampleConstraint ["1.0.0"; "latest"; "1.5.2"]
  = selectVersion exampleConstraint ["1.0.0"; "1.5.2"].
Proof.
  assert (Hjunk : Forall (fun t => parses t = false) ["latest"]).
  { constructor; [reflexivity|constructor]. }
  exact (proj2 (unparseable_tags_ignored exampleConstraint ["1.0.0"; "1.5.2"])
           ["1.0.0"] ["latest"] ["1.5.2"] eq_refl Hjunk).
Defined.

(** A fetcher given first, a logger given after it. *)
Lemma last_option_wins_witness :
  fetcher
    (reconciler
       (NewReconciler (manager resolved)
          ([WithLogger [LStr "a"]]
             ++ WithFetcher (fetcher (mockReconciler resolved))
             :: [WithLogger [LStr "controller"]])))
  = fetcher (mockReconciler resolved).
Proof.
  assert (Hstd : Forall standard [WithLogger [LStr "controller"]]).
  { constructor; [constructor|constructor]. }
  assert (Hlast : forall f',
             ~ In (WithFetcher f') [WithLogger [LStr "controller"]]).
  { intros f' [H|[]].
    apply (f_equal (fun o => log (reconciler
                                    (o (NewReconciler (manager resolved) [])))))
      in H.
    discriminate H. }
  exact (proj2 (proj2 (proj2 (proj2
           (last_option_wins (manager resolved) [WithLogger [LStr "a"]]
              [WithLogger [LStr "controller"]] Hstd))))
           (fetcher (mockReconciler resolved)) Hlast).
Defined.

(** Only a logger is given: the client is the manager's, the fetcher the
    no-op one. *)
Lemma defaults_unless_set_witness :
  client
    (reconciler
       (NewReconciler (manager resolved) [WithLogger [LStr "controller"]]))
  = GetClient (manager resolved)
  /\ fetcher
       (reconciler
          (NewReconciler (manager resolved) [WithLogger [LStr "controller"]]))
     = NewNopFetcher.
Proof.
  assert (Hstd : Forall standard [WithLogger [LStr "controller"]]).
  { constructor; [constructor|constructor]. }
  assert (Hnone : forall f',
             ~ In (WithFetcher f') [WithLogger [LStr "controller"]]).
  { intros f' [H|[]].
    apply (f_equal (fun o => log (reconciler
                                    (o (NewReconciler (manager resolved) [])))))
      in H.
    discriminate H. }
  pose proof (defaults_unless_set (manager resolved)
                [WithLogger [LStr "controller"]] Hstd) as Hdefaults.
  split; [exact (proj1 Hdefaults)|].
  exact (proj2 (proj2 (proj2 (proj2 (proj2 Hdefaults)))) Hnone).
Defined.

(** C10, as the specification states it, fails when the constraint does not
    parse either: the pass stops at the constraint, which it looks at first,
    and the failure to parse the reference is never logged. *)
Lemma unparseable_reference_counterexample :
  firstImplied (mockReconciler (healthy brokenDependency ["1.0.0"])) request
    brokenDependency
  /\ ParseReference (dep_Package brokenDependency)
     = Err (Failure "could not parse reference: not an image")
  /\ debugs (passTrace (mockReconciler (healthy brokenDependency ["1.0.0"]))
               request)
     = [("Reconciling", []);
        (errInvalidConstraint,
         [LStr "error"; LErr (Failure "improper constraint: >=banana")])]
  /\ ~ referenceFailureHandled
        (mockReconciler (healthy brokenDependency ["1.0.0"])) request
        (Failure "could not parse reference: not an image").
Proof.
  split.
  { exists (lockOf [configuration]), tt, [],
      [lp_Source configuration; dep_Package brokenDependency].
    repeat split. discriminate. }
  split; [reflexivity|]. split; [reflexivity|].
  intros [Hlogged _]. simpl in Hlogged.
  destruct Hlogged as [H|[H|[]]]; discriminate H.
Qed.

End MoreExamples.
